(** * TBM-TSP correlation visualizer: cleaning, filtering and ranking

    A shallow embedding of the data pipeline of the two Streamlit
    applications of the repository:

    - [App]      is [app.py]: chainage cleaning, row dropping, sorting, the
                 range filter, the numeric-column gate and the trend line;
    - [Enhanced] is the "Enhanced App.py" variant: the guarded correlation
                 metric, the PDF text sanitizer and the top-correlation list.

    Numbers are exact rationals ([Q]); a missing number (None / NaN) is
    [None].  Python exceptions are the left summand of ExtLib's error monad. *)

From Stdlib Require Import String Ascii Bool Arith NArith ZArith QArith Qabs List.
From Stdlib Require Import Lia Sorting.Sorted Sorting.Permutation.
From ExtLib Require Import Structures.Monad Structures.MonadExc Data.Monads.EitherMonad.
Import ListNotations.
Import MonadNotation.
Local Open Scope monad_scope.

(** ** Python values *)

Module Py.

(** A Python [str] is a sequence of Unicode code points. *)
Definition str := list N.

(** The code points of an ASCII literal. *)
Definition lit (s : string) : str := map N_of_ascii (list_ascii_of_string s).

Inductive exn :=
| ValueError
| KeyError (label : string)
| StopException
| LibraryError (what : string).

(** A computation either returns ([inr]) or raises ([inl]). *)
Definition outcome := sum exn.

Definition Returned {A} (a : A) : outcome A := inr a.
Definition Raised {A} (e : exn) : outcome A := inl e.

(** A spreadsheet cell: missing (None, NaN), a number (int or float), or
    any other object, carried by its [str()] text. *)
Inductive value :=
| NA
| Num (q : Q)
| Text (s : str).

Definition isna (v : value) : bool :=
  match v with NA => true | _ => false end.

Definition is_digit (c : N) : bool := ((48 <=? c) && (c <=? 57))%N.

Definition digit_val (c : N) : Z := Z.of_N c - 48.

(** The value of a run of decimal digits, most significant first. *)
Definition digits_val (ds : str) : Z :=
  fold_left (fun acc c => 10 * acc + digit_val c)%Z ds 0%Z.

(** Splits a text at its first '.', if it has one. *)
Fixpoint split_dot (s : str) : str * option str :=
  match s with
  | [] => ([], None)
  | c :: rest =>
      if (c =? 46)%N then ([], Some rest)
      else let (ip, fp) := split_dot rest in (c :: ip, fp)
  end.

(** [float(s)] on the texts the cleaning step hands to it, which hold
    nothing but digits and dots: an integer part, optionally a dot and a
    fraction, with a digit on at least one side of the dot.  Any other
    text is a ValueError.  The result is the exact decimal value. *)
Definition float (s : str) : outcome Q :=
  let (ip, fp) := split_dot s in
  match fp with
  | None =>
      if forallb is_digit ip && negb (Nat.eqb (length ip) 0)
      then Returned (inject_Z (digits_val ip))
      else Raised ValueError
  | Some fr =>
      if forallb is_digit ip && forallb is_digit fr
         && negb (Nat.eqb (length ip + length fr) 0)
      then Returned (Qred (Qmake (digits_val (ip ++ fr))
                                 (Z.to_pos (10 ^ Z.of_nat (length fr)))))
      else Raised ValueError
  end.

End Py.
Export Py.

(** ** The fragment of pandas the applications use *)

Module Pandas.

(** Column types: [Numeric] stands for int64 and float64, [Object] for the
    rest. *)
Inductive dtype := Numeric | Object.

Definition is_numeric (d : dtype) : bool :=
  match d with Numeric => true | Object => false end.

Definition row := list value.

(** A frame: labelled, typed columns and the rows in index order.  A row
    shorter than the header reads as missing beyond its end. *)
Record DataFrame := {
  columns : list (string * dtype);
  rows : list row
}.

Definition names (df : DataFrame) : list string := map fst (columns df).

Fixpoint index_of (c : string) (l : list string) : option nat :=
  match l with
  | [] => None
  | x :: t => if String.eqb c x then Some O else option_map S (index_of c t)
  end.

Definition get_loc (df : DataFrame) (c : string) : option nat :=
  index_of c (names df).

(** [c in df] *)
Definition contains (df : DataFrame) (c : string) : bool :=
  existsb (String.eqb c) (names df).

Definition cell (i : nat) (r : row) : value := nth i r NA.

Definition column_at (df : DataFrame) (i : nat) : list value :=
  map (cell i) (rows df).

(** [df[c]] *)
Definition getitem (df : DataFrame) (c : string) : outcome (list value) :=
  match get_loc df c with
  | Some i => Returned (column_at df i)
  | None => Raised (KeyError c)
  end.

(** [len(df)] *)
Definition len (df : DataFrame) : nat := length (rows df).

(** The float view of a cell: a number, or NaN. *)
Definition as_number (v : value) : option Q :=
  match v with Num q => Some q | _ => None end.

Definition of_option (o : option Q) : value :=
  match o with Some q => Num q | None => NA end.

(** [Series.apply(f)]: [f] on every element in index order; an exception
    of [f] ends the whole call. *)
Fixpoint apply {A B} (f : A -> outcome B) (l : list A) : outcome (list B) :=
  match l with
  | [] => ret []
  | v :: t => y <- f v ;; ys <- apply f t ;; ret (y :: ys)
  end.

(** The type pandas infers for a column of numbers and Nones: numeric as
    soon as one number is there (the Nones become NaN), otherwise the
    type it had when empty and object when all are None. *)
Definition infer_dtype (old : dtype) (vals : list (option Q)) : dtype :=
  match vals with
  | [] => old
  | _ => if existsb (fun o => match o with Some _ => true | None => false end) vals
         then Numeric else Object
  end.

Fixpoint set_nth {A} (i : nat) (x : A) (d : A) (l : list A) : list A :=
  match i, l with
  | O, [] => [x]
  | O, _ :: t => x :: t
  | S j, [] => d :: set_nth j x d []
  | S j, y :: t => y :: set_nth j x d t
  end.

(** [df[c] = series] for a column [c] that exists. *)
Definition setitem (df : DataFrame) (c : string) (d : dtype) (vals : list value)
  : outcome DataFrame :=
  match get_loc df c with
  | Some i =>
      Returned {| columns := set_nth i (c, d) (c, d) (columns df);
                  rows := map (fun rv => set_nth i (snd rv) NA (fst rv))
                              (combine (rows df) vals) |}
  | None => Raised (KeyError c)
  end.

(** [df.dropna(subset=[c])] *)
Definition dropna (df : DataFrame) (c : string) : outcome DataFrame :=
  match get_loc df c with
  | Some i =>
      Returned {| columns := columns df;
                  rows := filter (fun r => negb (isna (cell i r))) (rows df) |}
  | None => Raised (KeyError c)
  end.

(** Sorting.  pandas sorts with an unspecified order among equal keys;
    the insertion sort below keeps them in their original order, and no
    statement of this development depends on that choice. *)
Section Sort.
Context {A : Type} (leb : A -> A -> bool).

Fixpoint insert (x : A) (l : list A) : list A :=
  match l with
  | [] => [x]
  | y :: t => if leb x y then x :: y :: t else y :: insert x t
  end.

Definition isort (l : list A) : list A := fold_right insert [] l.
End Sort.

Definition ascending {A} (x y : Q * A) : bool := Qle_bool (fst x) (fst y).
Definition descending {A} (x y : Q * A) : bool := Qle_bool (fst y) (fst x).

(** The elements that carry a key, with it, and those that do not. *)
Definition keyed {A} (key : A -> option Q) (l : list A) : list (Q * A) :=
  flat_map (fun a => match key a with Some q => [(q, a)] | None => [] end) l.

Definition unkeyed {A} (key : A -> option Q) (l : list A) : list A :=
  filter (fun a => match key a with Some _ => false | None => true end) l.

(** Values in the requested order, then the NaNs ([na_position='last']). *)
Definition sort_by {A} (leb : Q * A -> Q * A -> bool) (key : A -> option Q)
           (l : list A) : list A :=
  map snd (isort leb (keyed key l)) ++ unkeyed key l.

(** [df.sort_values(by=c)] *)
Definition sort_values (df : DataFrame) (c : string) : outcome DataFrame :=
  match get_loc df c with
  | Some i =>
      Returned {| columns := columns df;
                  rows := sort_by ascending (fun r => as_number (cell i r)) (rows df) |}
  | None => Raised (KeyError c)
  end.

(** Element-wise comparisons of a float column with a bound; NaN compares
    false. *)
Definition ge_bound (lo : Q) (v : value) : bool :=
  match as_number v with Some q => Qle_bool lo q | None => false end.

Definition le_bound (hi : Q) (v : value) : bool :=
  match as_number v with Some q => Qle_bool q hi | None => false end.

(** [df.select_dtypes(include=['float64', 'int64']).columns.tolist()] *)
Definition select_dtypes (df : DataFrame) : list string :=
  map fst (filter (fun cd => is_numeric (snd cd)) (columns df)).

(** *** Pearson correlation

    A coefficient [r] is carried by the rational [r * |r|]: the map is
    strictly increasing on [[-1, 1]] and fixes -1, 0 and 1, so the sign,
    the comparisons between coefficients and the comparisons with 0 and 1
    are those of [r] itself, and [abs] is [Qabs].  NaN is [None]. *)

Definition complete_pairs (xs ys : list (option Q)) : list (Q * Q) :=
  flat_map (fun p => match p with
                     | (Some x, Some y) => [(x, y)]
                     | _ => []
                     end) (combine xs ys).

Definition Qsum (l : list Q) : Q := fold_right Qplus 0 l.

Definition mean (l : list Q) : Q := Qsum l / inject_Z (Z.of_nat (length l)).

(** Sum of the products of the deviations from the two means. *)
Definition codev (xs ys : list Q) : Q :=
  Qsum (map (fun p => (fst p - mean xs) * (snd p - mean ys)) (combine xs ys)).

(** [Series.corr]: over the rows where both values are present; NaN when
    none is left or one side has no variance. *)
Definition corr (xs ys : list (option Q)) : option Q :=
  let ps := complete_pairs xs ys in
  let px := map fst ps in
  let py := map snd ps in
  let sxy := codev px py in
  let sxx := codev px px in
  let syy := codev py py in
  if Qeq_bool (sxx * syy) 0 then None
  else Some (Qred (sxy * Qabs sxy / (sxx * syy))).

(** [s.min()] and [s.max()] skip the missing values and are NaN when none
    is present. *)
Definition pick (better : Q -> Q -> bool) (o acc : option Q) : option Q :=
  match o, acc with
  | Some a, Some b => Some (if better a b then a else b)
  | Some a, None => Some a
  | None, _ => acc
  end.

Definition series_min (s : list (option Q)) : option Q :=
  fold_right (pick Qle_bool) None s.

Definition series_max (s : list (option Q)) : option Q :=
  fold_right (pick (fun a b => Qle_bool b a)) None s.

(** A series indexed by (column label, row label), as [unstack] makes. *)
Definition pair_series := list ((string * string) * option Q).

Definition numeric_columns (df : DataFrame) : list (string * list (option Q)) :=
  flat_map (fun ic => match ic with
                      | (i, (c, Numeric)) => [(c, map as_number (column_at df i))]
                      | _ => []
                      end)
           (combine (seq 0 (length (columns df))) (columns df)).

(** [df.corr(numeric_only=True).abs().unstack()]: the matrix entry of row
    [a] and column [b] is [corr a b]; unstacking walks the columns and,
    inside each, the rows. *)
Definition corr_abs_unstack (df : DataFrame) : pair_series :=
  let cols := numeric_columns df in
  flat_map (fun b =>
              map (fun a => ((fst b, fst a), option_map Qabs (corr (snd a) (snd b))))
                  cols)
           cols.

(** [s.sort_values(ascending=False)] *)
Definition sort_values_desc (s : pair_series) : pair_series :=
  sort_by descending snd s.

(** [s[s < 1]] *)
Definition lt_one (s : pair_series) : pair_series :=
  filter (fun e => match snd e with
                   | Some v => negb (Qle_bool 1 v)
                   | None => false
                   end) s.

(** [s.dropna()] *)
Definition dropna_series (s : pair_series) : pair_series :=
  filter (fun e => match snd e with Some _ => true | None => false end) s.

(** [s.head(n)] *)
Definition head (n : nat) (s : pair_series) : pair_series := firstn n s.

End Pandas.
Export Pandas.

(** ** app.py *)

Module App.

(** [re.sub(r"[^0-9.]", "", s)] *)
Definition strip_non_numeric (s : str) : str :=
  filter (fun c => is_digit c || (c =? 46)%N) s.

Definition clean_chainage (v : value) : outcome (option Q) :=
  match v with
  | NA => ret None
  | Num q => ret (Some q)
  | Text s => catch (x <- float (strip_non_numeric s) ;; ret (Some x))
                    (fun _ => ret None)
  end.

(** ["chain" in c] *)
Fixpoint has_substring (sub s : string) : bool :=
  String.prefix sub s
  || match s with
     | EmptyString => false
     | String _ t => has_substring sub t
     end.

(** [next((c for c in data.columns if "chain" in c), None)] *)
Definition chain_col (data : DataFrame) : option string :=
  find (has_substring "chain") (names data).

Definition dtype_of (data : DataFrame) (c : string) : dtype :=
  match get_loc data c with
  | Some i => snd (nth i (columns data) (c, Object))
  | None => Object
  end.

(** Lines 21 to 36: find the chainage column (stop with an error when
    there is none), clean it, drop the rows left without a chainage, sort
    by chainage. *)
Definition normalize (data : DataFrame) : outcome (DataFrame * string) :=
  match chain_col data with
  | None => Raised StopException
  | Some c =>
      col <- getitem data c ;;
      cleaned <- apply clean_chainage col ;;
      data <- setitem data c (infer_dtype (dtype_of data c) cleaned)
                      (map of_option cleaned) ;;
      data <- dropna data c ;;
      data <- sort_values data c ;;
      ret (data, c)
  end.

(** Lines 47 to 50: the rows inside the selected chainage range. *)
Definition filtered (data : DataFrame) (c : string) (selected_range : Q * Q)
  : outcome DataFrame :=
  match get_loc data c with
  | Some i =>
      Returned {| columns := columns data;
                  rows := filter (fun r => ge_bound (fst selected_range) (cell i r)
                                           && le_bound (snd selected_range) (cell i r))
                                 (rows data) |}
  | None => Raised (KeyError c)
  end.

(** Line 40: the ends of the slider, the least and the greatest chainage. *)
Definition chainage_bounds (data : DataFrame) (c : string)
  : outcome (option Q * option Q) :=
  col <- getitem data c ;;
  ret (series_min (map as_number col), series_max (map as_number col)).

(** What the trend-line block leaves on the chart. *)
Inductive trend (F : Type) :=
| NoTrend
| Trendline (z : F) (corr_val : option Q).
Arguments NoTrend {F}.
Arguments Trendline {F}.

Record summary (F : Type) := {
  trendline : trend F;
  corr_val : option Q
}.
Arguments trendline {F}.
Arguments corr_val {F}.

Section Fit.
(** [np.polyfit(x, y, 1)], numpy's own: it gets the two columns as they
    are and may return coefficients or raise. *)
Context {F : Type} (polyfit : list (option Q) -> list (option Q) -> outcome F).

(** Lines 76 to 80. *)
Definition add_trendline (filtered : DataFrame) (x_axis y_axis : string)
  : outcome (trend F) :=
  if 2 <? len filtered then
    xs <- getitem filtered x_axis ;;
    ys <- getitem filtered y_axis ;;
    z <- polyfit (map as_number xs) (map as_number ys) ;;
    ret (Trendline z (corr (map as_number xs) (map as_number ys)))
  else ret NoTrend.

(** Lines 53 to 146 without the drawing: the numeric-column gate, the
    scatter of the two chosen axes, the trend line and the correlation
    of the summary. *)
Definition analyse (filtered : DataFrame) (x_axis y_axis : string)
  : outcome (summary F) :=
  let numeric_cols := select_dtypes filtered in
  if length numeric_cols <? 2 then Raised StopException
  else
    xs <- getitem filtered x_axis ;;
    ys <- getitem filtered y_axis ;;
    t <- add_trendline filtered x_axis y_axis ;;
    ret {| trendline := t;
           corr_val := corr (map as_number xs) (map as_number ys) |}.
End Fit.

End App.

(** ** The enhanced application *)

Module Enhanced.

(** Line 38: the same range expression as [App.filtered]. *)
Definition filtered := App.filtered.

(** Line 46. *)
Definition corr_val (data : DataFrame) (x_axis y_axis : string)
  : outcome (option Q) :=
  if contains data x_axis && contains data y_axis then
    xs <- getitem data x_axis ;;
    ys <- getitem data y_axis ;;
    ret (corr (map as_number xs) (map as_number ys))
  else ret (Some 0).

(** Line 48: [data[numeric_cols]] takes the listed columns, one after the
    other (a KeyError for a label that is not there), [.min()] the least
    value of each, [.min()] again the least of those. *)
Definition min_velocity (data : DataFrame) (numeric_cols : list string)
  : outcome (option Q) :=
  if 0 <? length numeric_cols then
    cols <- apply (getitem data) numeric_cols ;;
    ret (series_min (map (fun col => series_min (map as_number col)) cols))
  else ret (Some 0).

(** [" ".join(l)] *)
Fixpoint join_space (l : list string) : string :=
  match l with
  | [] => EmptyString
  | [c] => c
  | c :: t => String.append c (String " "%char (join_space t))
  end.

(** Lines 91 to 93: the weak-zone section is drawn when the joined header
    mentions a velocity, with one chart per velocity column. *)
Definition weak_zone_charts (data : DataFrame) : option (list string) :=
  if App.has_substring "velocity" (join_space (names data))
  then Some (filter (App.has_substring "velocity") (names data))
  else None.

(** The substitution table of [safe_text], in its order: en dash, em dash,
    degree, plus-minus, multiplication, bullet, right and left single
    quote, left and right double quote, arrow. *)
Definition replacements : list (N * str) :=
  [ (0x2013, lit "-"); (0x2014, lit "-"); (0xB0, lit " deg");
    (0xB1, lit "+/-"); (0xD7, lit "x"); (0x2022, lit "*");
    (0x2019, lit "'"); (0x2018, lit "'");
    (0x201C, [34]); (0x201D, [34]); (0x2192, lit "->") ]%N.

(** [text.replace(k, v)] for a one-character [k]. *)
Definition replace (k : N) (v : str) (text : str) : str :=
  flat_map (fun c => if (c =? k)%N then v else [c]) text.

(** [text.encode("latin-1", "replace")]: one byte per character, '?' for
    a character that has no Latin-1 byte. *)
Definition encode_latin1_replace (text : str) : list N :=
  map (fun c => if (c <=? 255)%N then c else 63%N) text.

(** [bytes.decode("latin-1")] *)
Definition decode_latin1 (b : list N) : str := b.

Definition safe_text (text : str) : str :=
  let text := fold_left (fun t kv => replace (fst kv) (snd kv) t) replacements text in
  decode_latin1 (encode_latin1_replace text).

(** Lines 154 and 155, with the length of the list as a parameter. *)
Definition top_correlations (data : DataFrame) (limit : nat) : pair_series :=
  let corr_matrix := sort_values_desc (corr_abs_unstack data) in
  head limit (dropna_series (lt_one corr_matrix)).

Definition corr_matrix (data : DataFrame) : pair_series :=
  top_correlations data 5.

End Enhanced.

(** ** Auxiliary definitions and sample tables *)

(** The cleaning as a total function. *)
Definition cleaned (v : value) : option Q :=
  match v with
  | NA => None
  | Num q => Some q
  | Text s => match float (App.strip_non_numeric s) with
              | inr x => Some x
              | inl _ => None
              end
  end.

(** Both elements carry a key, and the keys are in the order [ord]. *)
Definition key_ordered {A} (ord : Q -> Q -> Prop) (key : A -> option Q) (a b : A) : Prop :=
  exists p q, key a = Some p /\ key b = Some q /\ ord p q.

(** The row the cleaning makes of a row, for the chainage at index [i]. *)
Definition clean_row (i : nat) (r : row) : row :=
  set_nth i (of_option (cleaned (cell i r))) NA r.

(** The rows of the normalized table, written without the error monad. *)
Definition normalized_rows (i : nat) (rs : list row) : list row :=
  sort_by ascending (fun r => as_number (cell i r))
          (filter (fun r => negb (isna (cell i r))) (map (clean_row i) rs)).

Definition survey : DataFrame :=
  {| columns := [("chainage"%string, Numeric); ("torque"%string, Numeric)];
     rows := [[Num 100; Num 5]; [Num 140; Num 7]; [Num 120; Num 6]; [Num 160; Num 9]] |}.

Definition survey_sorted : DataFrame :=
  {| columns := [("chainage"%string, Numeric); ("torque"%string, Numeric)];
     rows := [[Num 100; Num 5]; [Num 120; Num 6]; [Num 140; Num 7]; [Num 160; Num 9]] |}.

Definition field_notes : DataFrame :=
  {| columns := [("chainage"%string, Object); ("torque"%string, Numeric)];
     rows := [[Text (lit "CH 100.5 m"); Num 5]; [Text (lit "n/a"); Num 7];
              [NA; Num 6]; [Num 160; Num 9]; [Text (lit "1.2.3"); Num 1]] |}.

(** A fitting function for the examples: the exact least-squares line
    (slope, intercept) of complete columns.  It declines a column with a
    missing value and a constant [x]; what numpy answers there is left
    open, the statements below hold for every fitting function. *)
Definition least_squares (xs ys : list (option Q)) : outcome (Q * Q) :=
  let ps := complete_pairs xs ys in
  let px := map fst ps in
  let py := map snd ps in
  if negb (Nat.eqb (length ps) (length xs)) || negb (Nat.eqb (length ps) (length ys))
     || Qeq_bool (codev px px) 0
  then Raised (LibraryError "LinAlgError")
  else
    let slope := codev px py / codev px px in
    Returned (Qred slope, Qred (mean py - slope * mean px)).

(** Three rows, one of them without a [y]. *)
Definition gappy : DataFrame :=
  {| columns := [("chainage"%string, Numeric); ("x"%string, Numeric); ("y"%string, Numeric)];
     rows := [[Num 100; Num 1; Num 1]; [Num 120; Num 2; NA]; [Num 140; Num 3; Num 3]] |}.

(** Two rows. *)
Definition two_rows : DataFrame :=
  {| columns := [("chainage"%string, Numeric); ("x"%string, Numeric); ("y"%string, Numeric)];
     rows := [[Num 100; Num 1; Num 1]; [Num 120; Num 2; Num 5]] |}.

(** One numeric column only. *)
Definition one_numeric : DataFrame :=
  {| columns := [("chainage"%string, Numeric); ("remark"%string, Object)];
     rows := [[Num 100; Text (lit "ok")]; [Num 120; Text (lit "wet")]] |}.

Definition printable_ascii (c : N) : bool := ((32 <=? c) && (c <=? 126))%N.

(** Two readings that move together half of the time (r = 0.5, carried as
    1/4), next to a text column. *)
Definition probe : DataFrame :=
  {| columns := [("thrust"%string, Numeric); ("remark"%string, Object);
                 ("torque"%string, Numeric)];
     rows := [[Num 1; Text (lit "dry"); Num 1]; [Num 2; NA; Num 3];
              [Num 3; Text (lit "wet"); Num 2]] |}.

(** Two readings in exact proportion (r = 1), and a third one. *)
Definition collinear : DataFrame :=
  {| columns := [("thrust"%string, Numeric); ("torque"%string, Numeric);
                 ("velocity"%string, Numeric)];
     rows := [[Num 1; Num 2; Num 1]; [Num 2; Num 4; Num 3]; [Num 3; Num 6; Num 2]] |}.

(** [sub] occurs in [s] as a run of consecutive characters. *)
Definition occurs_in (sub s : string) : Prop :=
  exists pre post, s = String.append pre (String.append sub post).

(** What the sanitizer makes of one character. *)
Definition safe_char (c : N) : str :=
  match find (fun kv => (c =? fst kv)%N) Enhanced.replacements with
  | Some kv => snd kv
  | None => if (c <=? 255)%N then [c] else [63%N]
  end.

(** The column of a label, empty for a label that is not in the header. *)
Definition column_of (df : DataFrame) (c : string) : list value :=
  match get_loc df c with
  | Some i => column_at df i
  | None => []
  end.

(** A text without a space. *)
Fixpoint spaceless (s : string) : bool :=
  match s with
  | EmptyString => true
  | String a t => negb (Ascii.eqb a " ") && spaceless t
  end.

(** A character the sanitizer leaves as it is. *)
Definition plain_char (c : N) : Prop :=
  (c <= 255)%N /\ ~ In c (map fst Enhanced.replacements).

(** The ranking before it is cut to its first entries. *)
Definition full_ranking (data : DataFrame) : pair_series :=
  dropna_series (lt_one (sort_values_desc (corr_abs_unstack data))).

(** An entry of the matrix that can be ranked: its coefficient is below 1. *)
Definition eligible (e : (string * string) * option Q) : Prop :=
  exists q, snd e = Some q /\ q < 1.

(** The characters the cleaning of a chainage text keeps. *)
Definition keep_char (c : N) : bool := is_digit c || (c =? 46)%N.

(** The number of dots of a text. *)
Definition count_dots (s : str) : nat := length (filter (fun c => (c =? 46)%N) s).

(** * Properties *)

(** ** Cleaning of chainage values *)

Lemma clean_chainage_cleaned (v : value) :
  App.clean_chainage v = Returned (cleaned v).
Proof.
  destruct v as [| q | s]; simpl; try reflexivity.
  destruct (float (App.strip_non_numeric s)); reflexivity.
Qed.

Lemma apply_total {A B} (f : A -> outcome B) (g : A -> B) (l : list A) :
  (forall a, f a = Returned (g a)) -> apply f l = Returned (map g l).
Proof.
  intros Hf. induction l as [| a l IH]; simpl.
  - reflexivity.
  - rewrite Hf, IH. reflexivity.
Qed.

(** ** Insertion sort *)

Section SortFacts.
Context {A : Type} (leb : A -> A -> bool) (R : A -> A -> Prop).
Hypothesis leb_true : forall x y, leb x y = true -> R x y.
Hypothesis leb_false : forall x y, leb x y = false -> R y x.
Hypothesis R_trans : forall x y z, R x y -> R y z -> R x z.

Lemma insert_perm (x : A) (l : list A) : Permutation (insert leb x l) (x :: l).
Proof.
  induction l as [| y t IH]; simpl.
  - apply Permutation_refl.
  - destruct (leb x y).
    + apply Permutation_refl.
    + eapply perm_trans; [apply perm_skip, IH | apply perm_swap].
Qed.

Lemma isort_perm (l : list A) : Permutation (isort leb l) l.
Proof.
  induction l as [| x t IH]; simpl.
  - constructor.
  - eapply perm_trans; [apply insert_perm | apply perm_skip, IH].
Qed.

Lemma insert_sorted (x : A) (l : list A) :
  StronglySorted R l -> StronglySorted R (insert leb x l).
Proof.
  induction 1 as [| y t Ht IH Hy]; simpl.
  - repeat constructor.
  - destruct (leb x y) eqn:E.
    + constructor; [constructor; assumption |].
      constructor; [apply leb_true, E |].
      eapply Forall_impl; [| exact Hy].
      intros z Hz. eapply R_trans; [apply leb_true, E | exact Hz].
    + constructor; [exact IH |].
      eapply Permutation_Forall; [apply Permutation_sym, insert_perm |].
      constructor; [apply leb_false, E | exact Hy].
Qed.

Lemma isort_sorted (l : list A) : StronglySorted R (isort leb l).
Proof.
  induction l as [| x t IH]; simpl.
  - constructor.
  - apply insert_sorted, IH.
Qed.
End SortFacts.

Lemma firstn_incl {A} (n : nat) (l : list A) (x : A) :
  In x (firstn n l) -> In x l.
Proof.
  revert n. induction l as [| y t IH]; intros [| n]; simpl; try tauto.
  intros [H | H]; [left; exact H | right; apply (IH n), H].
Qed.

Section SortedFacts.
Context {A : Type} (R : A -> A -> Prop).


Lemma StronglySorted_filter (f : A -> bool) (l : list A) :
  StronglySorted R l -> StronglySorted R (filter f l).
Proof.
  induction 1 as [| x t Ht IH Hx]; simpl.
  - constructor.
  - destruct (f x); [| exact IH].
    constructor; [exact IH |].
    rewrite Forall_forall in *. intros y Hy.
    apply Hx. apply filter_In in Hy. tauto.
Qed.

Lemma StronglySorted_firstn (n : nat) (l : list A) :
  StronglySorted R l -> StronglySorted R (firstn n l).
Proof.
  intros Hs. revert n. induction Hs as [| x t Ht IH Hx]; intros [| n]; simpl;
    try constructor.
  - apply IH.
  - rewrite Forall_forall in *. intros y Hy.
    apply Hx. eapply firstn_incl; eauto.
Qed.
End SortedFacts.

(** ** Sorting by an optional key *)

Section SortBy.
Context {A : Type} (key : A -> option Q).

Lemma keyed_key (l : list A) :
  Forall (fun e => key (snd e) = Some (fst e)) (keyed key l).
Proof.
  induction l as [| a l IH]; simpl.
  - constructor.
  - destruct (key a) eqn:E; simpl; [constructor |]; assumption.
Qed.

Lemma keyed_unkeyed_perm (l : list A) :
  Permutation (map snd (keyed key l) ++ unkeyed key l) l.
Proof.
  induction l as [| a l IH]; simpl.
  - constructor.
  - destruct (key a); simpl.
    + apply perm_skip, IH.
    + apply Permutation_sym. eapply perm_trans; [| apply Permutation_middle].
      apply perm_skip, Permutation_sym, IH.
Qed.

Lemma sort_by_perm (leb : Q * A -> Q * A -> bool) (l : list A) :
  Permutation (sort_by leb key l) l.
Proof.
  unfold sort_by. eapply perm_trans; [| apply keyed_unkeyed_perm].
  apply Permutation_app_tail, Permutation_map, isort_perm.
Qed.

Lemma unkeyed_nil (l : list A) :
  Forall (fun a => key a <> None) l -> unkeyed key l = [].
Proof.
  induction 1 as [| a l Ha Hl IH]; simpl.
  - reflexivity.
  - destruct (key a); [exact IH | congruence].
Qed.

Lemma map_snd_key_ordered (ord : Q -> Q -> Prop) (l : list (Q * A)) :
  Forall (fun e => key (snd e) = Some (fst e)) l ->
  StronglySorted (fun e1 e2 => ord (fst e1) (fst e2)) l ->
  StronglySorted (key_ordered ord key) (map snd l).
Proof.
  intros Hk Hs. induction Hs as [| e t Ht IH He]; simpl.
  - constructor.
  - inversion Hk as [| ? ? Hke Hkt]; subst.
    constructor; [apply IH, Hkt |].
    rewrite Forall_forall in *. intros b Hb.
    apply in_map_iff in Hb. destruct Hb as [e' [<- He']].
    exists (fst e), (fst e'). auto.
Qed.

Lemma sorted_part_ascending (l : list A) :
  StronglySorted (key_ordered Qle key) (map snd (isort ascending (keyed key l))).
Proof.
  apply map_snd_key_ordered.
  - eapply Permutation_Forall; [apply Permutation_sym, isort_perm | apply keyed_key].
  - apply isort_sorted; unfold ascending.
    + intros x y H. apply Qle_bool_iff, H.
    + intros x y H. destruct (Qlt_le_dec (fst y) (fst x)) as [Hlt | Hle].
      * apply Qlt_le_weak, Hlt.
      * apply Qle_bool_iff in Hle. congruence.
    + intros x y z. apply Qle_trans.
Qed.

Lemma sorted_part_descending (l : list A) :
  StronglySorted (key_ordered (fun p q => q <= p) key)
                 (map snd (isort descending (keyed key l))).
Proof.
  apply map_snd_key_ordered.
  - eapply Permutation_Forall; [apply Permutation_sym, isort_perm | apply keyed_key].
  - apply isort_sorted; unfold descending.
    + intros x y H. apply Qle_bool_iff, H.
    + intros x y H. destruct (Qlt_le_dec (fst x) (fst y)) as [Hlt | Hle].
      * apply Qlt_le_weak, Hlt.
      * apply Qle_bool_iff in Hle. congruence.
    + intros x y z H1 H2. eapply Qle_trans; eassumption.
Qed.
End SortBy.

(** ** Frames *)

Lemma index_of_nth (c : string) (l : list string) (i : nat) :
  index_of c l = Some i -> nth_error l i = Some c.
Proof.
  revert i. induction l as [| x t IH]; simpl; intros i H.
  - discriminate.
  - destruct (String.eqb_spec c x) as [-> | Hne].
    + injection H as <-. reflexivity.
    + destruct (index_of c t) as [j |]; [| discriminate].
      injection H as <-. simpl. apply IH. reflexivity.
Qed.

Lemma index_of_In (c : string) (l : list string) :
  In c l -> exists i, index_of c l = Some i.
Proof.
  induction l as [| x t IH]; simpl; intros H.
  - contradiction.
  - destruct (String.eqb_spec c x) as [-> | Hne].
    + exists O. reflexivity.
    + destruct H as [H | H]; [congruence |].
      destruct (IH H) as [j ->]. exists (S j). reflexivity.
Qed.

Lemma index_of_None (c : string) (l : list string) :
  ~ In c l -> index_of c l = None.
Proof.
  induction l as [| x t IH]; simpl; intros H.
  - reflexivity.
  - destruct (String.eqb_spec c x) as [-> | Hne].
    + exfalso. apply H. left. reflexivity.
    + rewrite IH; [reflexivity | tauto].
Qed.

Lemma chain_col_loc (data : DataFrame) (c : string) :
  App.chain_col data = Some c -> exists i, get_loc data c = Some i.
Proof.
  intros H. apply find_some in H. apply index_of_In, H.
Qed.

Lemma set_nth_names (i : nat) (c : string) (d : dtype) (cols : list (string * dtype)) :
  nth_error (map fst cols) i = Some c ->
  map fst (set_nth i (c, d) (c, d) cols) = map fst cols.
Proof.
  revert i. induction cols as [| x t IH]; intros [| i]; simpl; try discriminate.
  - intros H. injection H as <-. reflexivity.
  - intros H. rewrite IH; [reflexivity | exact H].
Qed.

Lemma cell_set_nth (i : nat) (v : value) (r : row) :
  cell i (set_nth i v NA r) = v.
Proof.
  unfold cell. revert r. induction i as [| i IH]; intros [| x t]; simpl; auto.
Qed.

Lemma combine_map_r {A B} (f : A -> B) (l : list A) :
  combine l (map f l) = map (fun a => (a, f a)) l.
Proof.
  induction l as [| a l IH]; simpl; [| rewrite IH]; reflexivity.
Qed.

Lemma normalize_eq (data : DataFrame) (c : string) (i : nat) :
  App.chain_col data = Some c -> get_loc data c = Some i ->
  exists cols,
    App.normalize data
    = Returned ({| columns := cols; rows := normalized_rows i (rows data) |}, c)
    /\ map fst cols = names data.
Proof.
  intros Hc Hi. unfold App.normalize. rewrite Hc.
  unfold getitem. rewrite Hi.
  cbn [bind Monad_either Returned].
  rewrite (apply_total _ cleaned) by apply clean_chainage_cleaned.
  cbn [bind Monad_either Returned].
  unfold setitem. rewrite Hi.
  cbn [bind Monad_either Returned].
  set (cols := set_nth i _ _ _).
  assert (Hn : map fst cols = names data).
  { apply set_nth_names. apply index_of_nth, Hi. }
  unfold dropna, get_loc, names. cbn [columns rows]. rewrite Hn.
  fold (names data). fold (get_loc data c). rewrite Hi.
  cbn [bind Monad_either Returned].
  unfold sort_values, get_loc, names. cbn [columns rows]. rewrite Hn.
  fold (names data). fold (get_loc data c). rewrite Hi.
  cbn [bind Monad_either Returned ret].
  exists cols. split; [| exact Hn].
  unfold Returned, normalized_rows. do 3 f_equal.
  unfold column_at. rewrite !map_map, combine_map_r, map_map.
  reflexivity.
Qed.

Lemma normalize_returns (data : DataFrame) (c : string) :
  App.chain_col data = Some c ->
  exists out, App.normalize data = Returned (out, c).
Proof.
  intros Hc. destruct (chain_col_loc _ _ Hc) as [i Hi].
  destruct (normalize_eq _ _ _ Hc Hi) as [cols [H _]].
  eexists. exact H.
Qed.

Lemma normalize_inv (data out : DataFrame) (c : string) :
  App.normalize data = Returned (out, c) ->
  exists i, get_loc data c = Some i /\ get_loc out c = Some i
            /\ rows out = normalized_rows i (rows data).
Proof.
  intros H. unfold App.normalize in H.
  destruct (App.chain_col data) as [c' |] eqn:Hc; [| discriminate].
  destruct (chain_col_loc _ _ Hc) as [i Hi].
  destruct (normalize_eq _ _ _ Hc Hi) as [cols [E Hn]].
  unfold App.normalize in E. rewrite Hc in E. rewrite E in H.
  injection H as <- <-.
  exists i. repeat split; try assumption.
  unfold get_loc, names. cbn [columns]. rewrite Hn. exact Hi.
Qed.

Lemma cleaned_rows_kept (i : nat) (rs : list row) :
  filter (fun r => negb (isna (cell i r))) (map (clean_row i) rs)
  = flat_map (fun r => match App.clean_chainage (cell i r) with
                       | inr (Some q) => [set_nth i (Num q) NA r]
                       | _ => []
                       end) rs.
Proof.
  induction rs as [| r rs IH]; simpl.
  - reflexivity.
  - rewrite clean_chainage_cleaned. unfold clean_row at 1 2.
    rewrite cell_set_nth. unfold Returned.
    destruct (cleaned (cell i r)); simpl; rewrite IH; reflexivity.
Qed.

Lemma cleaned_rows_have_chainage (i : nat) (rs : list row) :
  Forall (fun r => as_number (cell i r) <> None)
         (filter (fun r => negb (isna (cell i r))) (map (clean_row i) rs)).
Proof.
  rewrite Forall_forall. intros r Hr.
  apply filter_In in Hr. destruct Hr as [Hin Hna].
  apply in_map_iff in Hin. destruct Hin as [r0 [<- _]].
  unfold clean_row in *. rewrite cell_set_nth in *.
  destruct (cleaned (cell i r0)); simpl in *; congruence.
Qed.

Lemma as_number_Some (v : value) (q : Q) : as_number v = Some q -> v = Num q.
Proof. destruct v; simpl; congruence. Qed.

(** *** Runs on the sample tables *)

Example float_examples :
  float (lit "12.50") = Returned (25 # 2)
  /\ float (lit "5.") = Returned 5
  /\ float (lit ".5") = Returned (1 # 2)
  /\ float (lit "007") = Returned 7
  /\ float (lit ".") = Raised ValueError
  /\ float (lit "") = Raised ValueError
  /\ float (lit "1.2.3") = Raised ValueError.
Proof. repeat split; reflexivity. Qed.

Example normalize_field_notes :
  App.normalize field_notes
  = Returned ({| columns := [("chainage"%string, Numeric); ("torque"%string, Numeric)];
                 rows := [[Num (201 # 2); Num 5]; [Num 160; Num 9]] |},
              "chainage"%string).
Proof. reflexivity. Qed.

(** C6: what [clean_chainage] makes of each kind of cell (missing: excluded;
    number: kept as it is; other: every character that is not a digit or a
    dot removed, the rest read as a float, and excluded when that fails); on
    a table with a chainage column the normalizer returns, and the rows of
    the table it returns are, up to their order, the rows whose chainage is
    not excluded, holding the cleaned chainage: a row whose chainage is
    excluded is dropped whole. *)
Theorem clean_chainage_drops_excluded_rows :
  App.clean_chainage NA = Returned None
  /\ (forall q, App.clean_chainage (Num q) = Returned (Some q))
  /\ (forall s,
        App.clean_chainage (Text s)
        = match float (filter (fun c => is_digit c || (c =? 46)%N) s) with
          | inr x => Returned (Some x)
          | inl _ => Returned None
          end)
  /\ (forall data c,
        App.chain_col data = Some c ->
        exists out i,
          App.normalize data = Returned (out, c)
          /\ get_loc data c = Some i
          /\ Permutation (rows out)
               (flat_map (fun r => match App.clean_chainage (cell i r) with
                                   | inr (Some q) => [set_nth i (Num q) NA r]
                                   | _ => []
                                   end) (rows data)))
  /\ (forall data out c,
        App.normalize data = Returned (out, c) ->
        exists i, get_loc data c = Some i
          /\ Permutation (rows out)
               (flat_map (fun r => match App.clean_chainage (cell i r) with
                                   | inr (Some q) => [set_nth i (Num q) NA r]
                                   | _ => []
                                   end) (rows data))).
Proof.
  assert (Hrows : forall data out c,
             App.normalize data = Returned (out, c) ->
             exists i, get_loc data c = Some i
               /\ Permutation (rows out)
                    (flat_map (fun r => match App.clean_chainage (cell i r) with
                                        | inr (Some q) => [set_nth i (Num q) NA r]
                                        | _ => []
                                        end) (rows data))).
  { intros data out c H.
    destruct (normalize_inv _ _ _ H) as [i [Hi [_ Hr]]].
    exists i. split; [exact Hi |].
    rewrite Hr. unfold normalized_rows.
    rewrite <- cleaned_rows_kept. apply sort_by_perm. }
  split; [reflexivity |]. split; [reflexivity |]. split; [| split].
  - intros s. rewrite clean_chainage_cleaned. simpl.
    unfold App.strip_non_numeric. destruct (float _); reflexivity.
  - intros data c Hc.
    destruct (normalize_returns _ _ Hc) as [out Hout].
    destruct (Hrows _ _ _ Hout) as [i [Hi Hp]].
    exists out, i. auto.
  - exact Hrows.
Qed.

Lemma clean_chainage_drops_excluded_rows_witness :
  App.normalize field_notes
  = Returned ({| columns := [("chainage"%string, Numeric); ("torque"%string, Numeric)];
                 rows := [[Num (201 # 2); Num 5]; [Num 160; Num 9]] |},
              "chainage"%string)
  /\ exists out i,
    App.normalize field_notes = Returned (out, "chainage"%string)
    /\ get_loc field_notes "chainage" = Some i
    /\ Permutation (rows out)
         (flat_map (fun r => match App.clean_chainage (cell i r) with
                             | inr (Some q) => [set_nth i (Num q) NA r]
                             | _ => []
                             end) (rows field_notes)).
Proof.
  split; [reflexivity |].
  apply (proj1 (proj2 (proj2 (proj2 clean_chainage_drops_excluded_rows)))
           field_notes "chainage"%string).
  reflexivity.
Defined.



(** C8: the out-of-order survey [100, 140, 120, 160] with readings
    [5, 7, 6, 9] is normalized to [100, 120, 140, 160] with [5, 6, 7, 9], and
    the range [110, 150] then keeps the rows at 120 and 140 and no other. *)
Theorem survey_scenario :
  App.normalize survey = Returned (survey_sorted, "chainage"%string)
  /\ map (cell 0) (rows survey_sorted) = [Num 100; Num 120; Num 140; Num 160]
  /\ map (cell 1) (rows survey_sorted) = [Num 5; Num 6; Num 7; Num 9]
  /\ App.filtered survey_sorted "chainage" (110, 150)
     = Returned {| columns := columns survey_sorted;
                   rows := [[Num 120; Num 6]; [Num 140; Num 7]] |}.
Proof. repeat split; reflexivity. Qed.

(** C10: [clean_chainage] returns on every cell, a number or None, and
    never raises: the ValueError of [float] on a text such as "1.2.3" or on
    the empty text is caught and becomes None. *)
Theorem clean_chainage_total :
  (forall v, exists r, App.clean_chainage v = Returned r)
  /\ float (App.strip_non_numeric (lit "1.2.3")) = Raised ValueError
  /\ App.clean_chainage (Text (lit "1.2.3")) = Returned None
  /\ float (App.strip_non_numeric (lit "")) = Raised ValueError
  /\ App.clean_chainage (Text (lit "")) = Returned None
  /\ App.clean_chainage (Text (lit "no chainage")) = Returned None.
Proof.
  split.
  - intros v. exists (cleaned v). apply clean_chainage_cleaned.
  - repeat split; reflexivity.
Qed.

(** ** The range filter *)

Lemma in_bounds_iff (lo hi : Q) (v : value) :
  ge_bound lo v && le_bound hi v = true
  <-> exists q, v = Num q /\ lo <= q /\ q <= hi.
Proof.
  unfold ge_bound, le_bound. destruct v as [| q | s]; simpl.
  - split; [discriminate | intros [q [H _]]; discriminate].
  - rewrite andb_true_iff, !Qle_bool_iff. split.
    + intros [H1 H2]. exists q. auto.
    + intros [q' [E [H1 H2]]]. injection E as <-. auto.
  - split; [discriminate | intros [q [H _]]; discriminate].
Qed.

(** C4, as the code has it: the filter raises nothing for any bounds.  It
    returns the table of the rows, in their order, whose chainage [v] has
    [low <= v <= high]; with [low > high] that table has no row. *)
Theorem filtered_keeps_rows_in_range (data : DataFrame) (c : string) (i : nat)
        (low high : Q) :
  get_loc data c = Some i ->
  exists out,
    App.filtered data c (low, high) = Returned out
    /\ columns out = columns data
    /\ rows out = filter (fun r => ge_bound low (cell i r) && le_bound high (cell i r))
                         (rows data)
    /\ (forall r, In r (rows out)
                  <-> In r (rows data)
                      /\ exists v, cell i r = Num v /\ low <= v /\ v <= high)
    /\ (high < low -> rows out = []).
Proof.
  intros Hi. unfold App.filtered. rewrite Hi. cbn [fst snd].
  eexists. split; [reflexivity |]. cbn [columns rows].
  split; [reflexivity |]. split; [reflexivity |]. split.
  - intros r. rewrite filter_In, in_bounds_iff. reflexivity.
  - intros Hlt. induction (rows data) as [| r rs IH]; simpl.
    + reflexivity.
    + destruct (ge_bound low (cell i r) && le_bound high (cell i r)) eqn:E;
        [| exact IH].
      apply in_bounds_iff in E. destruct E as [q [_ [H1 H2]]].
      exfalso. apply (Qlt_irrefl high).
      eapply Qlt_le_trans; [exact Hlt |]. eapply Qle_trans; eassumption.
Qed.

Lemma filtered_keeps_rows_in_range_witness :
  exists out,
    App.filtered survey_sorted "chainage" (110, 150) = Returned out
    /\ columns out = columns survey_sorted
    /\ rows out = filter (fun r => ge_bound 110 (cell 0 r) && le_bound 150 (cell 0 r))
                         (rows survey_sorted)
    /\ (forall r, In r (rows out)
                  <-> In r (rows survey_sorted)
                      /\ exists v, cell 0 r = Num v /\ 110 <= v /\ v <= 150)
    /\ (150 < 110 -> rows out = []).
Proof.
  apply (filtered_keeps_rows_in_range survey_sorted "chainage" 0 110 150).
  reflexivity.
Defined.

(** C4, as stated, fails: with inverted bounds the filter signals nothing
    and hands back a table (without rows). *)
Lemma filtered_inverted_bounds_returns :
  150 > 110
  /\ App.filtered survey_sorted "chainage" (150, 110)
     = Returned {| columns := columns survey_sorted; rows := [] |}
  /\ ~ (forall data c low high,
          low > high -> exists e, App.filtered data c (low, high) = Raised e).
Proof.
  split; [reflexivity |]. split; [reflexivity |].
  intros H. destruct (H survey_sorted "chainage"%string 150 110) as [e He].
  - reflexivity.
  - discriminate He.
Qed.

(** ** The trend line and the structural errors *)

Example least_squares_collinear :
  least_squares [Some 1; Some 2; Some 3] [Some 2; Some 4; Some 6] = Returned (2, 0).
Proof. reflexivity. Qed.

Lemma getitem_missing (df : DataFrame) (c : string) :
  ~ In c (names df) -> getitem df c = Raised (KeyError c).
Proof.
  intros H. unfold getitem, get_loc. rewrite index_of_None by exact H. reflexivity.
Qed.

Lemma getitem_present (df : DataFrame) (c : string) :
  In c (names df) -> exists vs, getitem df c = Returned vs.
Proof.
  intros H. unfold getitem, get_loc.
  destruct (index_of_In _ _ H) as [i ->]. eexists. reflexivity.
Qed.

Lemma contains_missing (df : DataFrame) (c : string) :
  ~ In c (names df) -> contains df c = false.
Proof.
  intros H. unfold contains. apply not_true_is_false. intros E.
  apply existsb_exists in E. destruct E as [x [Hx Ex]].
  apply String.eqb_eq in Ex. subst x. exact (H Hx).
Qed.

Section FitFacts.
Context {F : Type} (polyfit : list (option Q) -> list (option Q) -> outcome F).

(** C5, as the code has it: the line is fitted exactly when the filtered
    table has at least 3 rows, whatever values the two columns hold in them;
    with fewer rows the fit is skipped, and the summary still gets its
    correlation. *)
Theorem trendline_iff_three_rows (filtered : DataFrame) (x_axis y_axis : string)
        (xs ys : list value) :
  getitem filtered x_axis = Returned xs ->
  getitem filtered y_axis = Returned ys ->
  let fx := map as_number xs in
  let fy := map as_number ys in
  ((3 <= len filtered)%nat ->
   App.add_trendline polyfit filtered x_axis y_axis
   = match polyfit fx fy with
     | inr z => Returned (App.Trendline z (corr fx fy))
     | inl e => Raised e
     end)
  /\ ((len filtered < 3)%nat ->
      App.add_trendline polyfit filtered x_axis y_axis = Returned App.NoTrend)
  /\ ((exists z r, App.add_trendline polyfit filtered x_axis y_axis
                   = Returned (App.Trendline z r))
      -> (3 <= len filtered)%nat)
  /\ ((len filtered < 3)%nat -> (2 <= length (select_dtypes filtered))%nat ->
      App.analyse polyfit filtered x_axis y_axis
      = Returned {| App.trendline := App.NoTrend; App.corr_val := corr fx fy |}).
Proof.
  intros Hx Hy fx fy.
  assert (Hskip : (len filtered < 3)%nat ->
                  App.add_trendline polyfit filtered x_axis y_axis
                  = Returned App.NoTrend).
  { intros Hlt. unfold App.add_trendline.
    destruct (Nat.ltb_spec 2 (len filtered)); [lia | reflexivity]. }
  split; [| split; [exact Hskip | split]].
  - intros Hge. unfold App.add_trendline.
    destruct (Nat.ltb_spec 2 (len filtered)); [| lia].
    rewrite Hx, Hy. cbn [bind Monad_either Returned].
    fold fx fy. destruct (polyfit fx fy); reflexivity.
  - intros [z [r H]].
    destruct (Nat.lt_ge_cases (len filtered) 3) as [Hlt | Hge]; [| exact Hge].
    rewrite (Hskip Hlt) in H. discriminate H.
  - intros Hlt Hnum. unfold App.analyse.
    destruct (Nat.ltb_spec (length (select_dtypes filtered)) 2); [lia |].
    rewrite Hx, Hy, (Hskip Hlt). reflexivity.
Qed.

(** C3, as the code has it.  In app.py a table with fewer than two numeric
    columns stops the run and a missing axis column raises a KeyError: no
    summary, and no correlation, is returned.  In the enhanced application a
    missing axis column makes the correlation metric 0. *)
Theorem structural_errors :
  (forall filtered x_axis y_axis,
      (length (select_dtypes filtered) < 2)%nat
      \/ ~ In x_axis (names filtered) \/ ~ In y_axis (names filtered) ->
      App.analyse polyfit filtered x_axis y_axis = Raised StopException
      \/ App.analyse polyfit filtered x_axis y_axis = Raised (KeyError x_axis)
      \/ App.analyse polyfit filtered x_axis y_axis = Raised (KeyError y_axis))
  /\ (forall data x_axis y_axis,
         ~ In x_axis (names data) \/ ~ In y_axis (names data) ->
         Enhanced.corr_val data x_axis y_axis = Returned (Some 0)).
Proof.
  split.
  - intros filtered x_axis y_axis H. unfold App.analyse.
    destruct (Nat.ltb_spec (length (select_dtypes filtered)) 2) as [Hlt | Hge].
    { left. reflexivity. }
    right. destruct H as [H | H]; [lia |].
    destruct (in_dec string_dec x_axis (names filtered)) as [Hx | Hx].
    + destruct H as [H | H]; [contradiction |].
      right. destruct (getitem_present _ _ Hx) as [vs ->].
      rewrite (getitem_missing _ _ H). reflexivity.
    + left. rewrite (getitem_missing _ _ Hx). reflexivity.
  - intros data x_axis y_axis H. unfold Enhanced.corr_val.
    destruct H as [H | H]; rewrite (contains_missing _ _ H).
    + reflexivity.
    + rewrite andb_false_r. reflexivity.
Qed.
End FitFacts.

Lemma trendline_iff_three_rows_witness :
  App.add_trendline least_squares survey_sorted "chainage" "torque"
  = Returned (App.Trendline (13 # 200, -17 # 10) (Some (169 # 175)))
  /\ App.add_trendline least_squares two_rows "x" "y" = Returned App.NoTrend
  /\ App.analyse least_squares two_rows "x" "y"
     = Returned {| App.trendline := App.NoTrend; App.corr_val := Some 1 |}.
Proof.
  destruct (trendline_iff_three_rows least_squares survey_sorted "chainage" "torque"
              _ _ eq_refl eq_refl) as [H3 _].
  destruct (trendline_iff_three_rows least_squares two_rows "x" "y"
              _ _ eq_refl eq_refl) as [_ [H2 [_ Hs]]].
  split; [| split].
  - rewrite H3 by (vm_compute; lia). reflexivity.
  - apply H2. vm_compute. lia.
  - rewrite Hs by (vm_compute; lia). reflexivity.
Defined.

(** C5, as stated, fails: [gappy] has three rows and two complete (x, y)
    pairs, and the fit is not skipped: the two columns go to the fitting
    function as they are, and its coefficients make the trend line. *)
Lemma trendline_fitted_on_two_valid_points :
  length (complete_pairs [Some 1; Some 2; Some 3] [Some 1; None; Some 3]) = 2%nat
  /\ (forall (F : Type) (polyfit : list (option Q) -> list (option Q) -> outcome F),
         App.add_trendline polyfit gappy "x" "y"
         = match polyfit [Some 1; Some 2; Some 3] [Some 1; None; Some 3] with
           | inr z => Returned (App.Trendline z (Some 1))
           | inl e => Raised e
           end)
  /\ App.add_trendline (fun _ _ => Returned tt) gappy "x" "y"
     = Returned (App.Trendline tt (Some 1)).
Proof.
  split; [reflexivity |]. split; [| reflexivity].
  intros F polyfit. unfold App.add_trendline. cbn.
  destruct (polyfit _ _); reflexivity.
Qed.

Lemma structural_errors_witness :
  (App.analyse least_squares one_numeric "chainage" "remark" = Raised StopException
   \/ App.analyse least_squares one_numeric "chainage" "remark"
      = Raised (KeyError "chainage")
   \/ App.analyse least_squares one_numeric "chainage" "remark"
      = Raised (KeyError "remark"))
  /\ Enhanced.corr_val two_rows "x" "velocity" = Returned (Some 0).
Proof.
  split.
  - apply (proj1 (structural_errors least_squares)). left. vm_compute. lia.
  - apply (proj2 (structural_errors least_squares)). right.
    vm_compute. intuition discriminate.
Defined.

(** C3, as stated, fails: the enhanced application answers a missing axis
    column with the value 0, not with a failure. *)
Lemma corr_val_defaults_to_zero :
  ~ In "velocity"%string (names two_rows)
  /\ Enhanced.corr_val two_rows "x" "velocity" = Returned (Some 0)
  /\ ~ (forall data x_axis y_axis,
          ~ In y_axis (names data) ->
          exists e, Enhanced.corr_val data x_axis y_axis = Raised e).
Proof.
  assert (Hm : ~ In "velocity"%string (names two_rows)).
  { vm_compute. intuition discriminate. }
  split; [exact Hm |]. split; [reflexivity |].
  intros H. destruct (H two_rows "x"%string "velocity"%string Hm) as [e He].
  discriminate He.
Qed.

(** ** The text sanitizer *)

Lemma replace_app (k : N) (v a b : str) :
  Enhanced.replace k v (a ++ b) = Enhanced.replace k v a ++ Enhanced.replace k v b.
Proof. unfold Enhanced.replace. apply flat_map_app. Qed.

Lemma safe_text_app (a b : str) :
  Enhanced.safe_text (a ++ b) = Enhanced.safe_text a ++ Enhanced.safe_text b.
Proof.
  unfold Enhanced.safe_text, Enhanced.decode_latin1, Enhanced.encode_latin1_replace.
  rewrite <- map_app. f_equal.
  generalize Enhanced.replacements. intros tbl. revert a b.
  induction tbl as [| [k v] tbl IH]; intros a b; simpl.
  - reflexivity.
  - rewrite replace_app. apply IH.
Qed.

(** Whatever the text, the sanitizer leaves Latin-1 characters only. *)
Lemma safe_text_latin1 (text : str) :
  Forall (fun c => (c <= 255)%N) (Enhanced.safe_text text).
Proof.
  unfold Enhanced.safe_text, Enhanced.decode_latin1, Enhanced.encode_latin1_replace.
  rewrite Forall_forall. intros c Hc.
  apply in_map_iff in Hc. destruct Hc as [c0 [<- _]].
  destruct (N.leb_spec c0 255); [assumption | discriminate].
Qed.

(** The substitution table at work, and the placeholder. *)
Example safe_text_table :
  map (fun c => Enhanced.safe_text [c])
      [0x2013; 0x2014; 0xB0; 0xB1; 0xD7; 0x2022; 0x2019; 0x2018; 0x201C; 0x201D;
       0x2192; 0x4E2D]%N
  = [lit "-"; lit "-"; lit " deg"; lit "+/-"; lit "x"; lit "*"; lit "'"; lit "'";
     [34%N]; [34%N]; lit "->"; lit "?"].
Proof. reflexivity. Qed.

(** C2 at U+00E9 (e with acute accent): no entry of the table, a Latin-1
    byte, so it comes back as it went in, which is not ASCII.  The same for
    a line feed, which is ASCII and not printable. *)
Theorem safe_text_keeps_latin1_letter :
  Enhanced.safe_text [0xE9%N] = [0xE9%N]
  /\ printable_ascii 0xE9 = false
  /\ (127 < 0xE9)%N
  /\ Enhanced.safe_text [10%N] = [10%N]
  /\ ~ (forall text, forallb printable_ascii (Enhanced.safe_text text) = true).
Proof.
  repeat split.
  intros H. specialize (H [0xE9%N]). discriminate H.
Qed.

(** ** Pearson correlation *)

Lemma Qsum_nonneg (l : list Q) : Forall (fun q => 0 <= q) l -> 0 <= Qsum l.
Proof.
  induction 1 as [| q l Hq Hl IH]; simpl.
  - apply Qle_refl.
  - replace 0 with (0 + 0) by reflexivity. apply Qplus_le_compat; assumption.
Qed.

Lemma codev_self_nonneg (l : list Q) : 0 <= codev l l.
Proof.
  unfold codev. apply Qsum_nonneg.
  rewrite Forall_forall. intros q Hq.
  apply in_map_iff in Hq. destruct Hq as [[x y] [<- Hp]].
  assert (x = y) as <-.
  { clear - Hp. induction l as [| a l IH]; simpl in Hp; [contradiction |].
    destruct Hp as [Hp | Hp]; [congruence | auto]. }
  simpl. generalize (x - mean l). intros d.
  destruct (Qlt_le_dec d 0) as [Hneg | Hpos].
  - setoid_replace (d * d) with ((- d) * (- d)) by ring.
    apply Qmult_le_0_compat; apply (Qopp_le_compat d 0), Qlt_le_weak, Hneg.
  - apply Qmult_le_0_compat; assumption.
Qed.

Lemma complete_pairs_self (s : list (option Q)) :
  map snd (complete_pairs s s) = map fst (complete_pairs s s).
Proof.
  unfold complete_pairs. induction s as [| [x |] s IH]; simpl; congruence.
Qed.

(** The coefficient of a column with itself is 1, or NaN. *)
Lemma corr_self (s : list (option Q)) :
  corr s s = None \/ exists q, corr s s = Some q /\ q == 1.
Proof.
  unfold corr. rewrite complete_pairs_self.
  set (d := codev _ _).
  destruct (Qeq_bool (d * d) 0) eqn:E; [left; reflexivity | right].
  eexists. split; [reflexivity |].
  rewrite Qred_correct.
  apply Qeq_bool_neq in E.
  rewrite Qabs_pos by apply codev_self_nonneg.
  field. intros Hd. apply E. rewrite Hd. reflexivity.
Qed.

(** ** The ranking of correlations *)

Lemma numeric_columns_names_from (df : DataFrame) (k : nat) (cols : list (string * dtype)) :
  map fst (flat_map (fun ic : nat * (string * dtype) =>
                       match ic with
                       | (i, (c, Numeric)) => [(c, map as_number (column_at df i))]
                       | _ => []
                       end)
                    (combine (seq k (length cols)) cols))
  = map fst (filter (fun cd => is_numeric (snd cd)) cols).
Proof.
  revert k. induction cols as [| [c [|]] cols IH]; intros k; simpl.
  - reflexivity.
  - rewrite IH. reflexivity.
  - apply IH.
Qed.

Lemma numeric_columns_names (df : DataFrame) :
  map fst (numeric_columns df) = select_dtypes df.
Proof. apply numeric_columns_names_from. Qed.

Section DistinctKeys.
Context {E K : Type} (key : E -> K).

Lemma distinct_keys_filter (keep : E -> bool) (s : list E) :
  NoDup (map key s) -> NoDup (map key (filter keep s)).
Proof.
  intros H. induction s as [| e s IH]; simpl in *.
  - constructor.
  - inversion H as [| ? ? Hn Hs]; subst.
    destruct (keep e); simpl; [constructor |]; auto.
    intros Hin. apply Hn. apply in_map_iff in Hin. destruct Hin as [x [Ex Hx]].
    apply in_map_iff. exists x. apply filter_In in Hx. tauto.
Qed.

Lemma distinct_keys_firstn (n : nat) (s : list E) :
  NoDup (map key s) -> NoDup (map key (firstn n s)).
Proof.
  revert n. induction s as [| e s IH]; intros [| n]; simpl; intros H;
    try constructor.
  - inversion H as [| ? ? Hn Hs]; subst.
    intros Hin. apply Hn. apply in_map_iff in Hin. destruct Hin as [x [Ex Hx]].
    apply in_map_iff. exists x. split; [exact Ex |]. eapply firstn_incl, Hx.
  - inversion H; subst. apply IH. assumption.
Qed.
End DistinctKeys.

Lemma NoDup_map_eq {A B} (f : A -> B) (l : list A) (x y : A) :
  NoDup (map f l) -> In x l -> In y l -> f x = f y -> x = y.
Proof.
  induction l as [| a l IH]; simpl; intros H Hx Hy E.
  - contradiction.
  - inversion H as [| ? ? Hn Hl]; subst.
    destruct Hx as [-> | Hx], Hy as [-> | Hy]; auto.
    + exfalso. apply Hn. rewrite E. apply in_map, Hy.
    + exfalso. apply Hn. rewrite <- E. apply in_map, Hx.
Qed.

Lemma NoDup_list_prod {A B} (l : list A) (l' : list B) :
  NoDup l -> NoDup l' -> NoDup (list_prod l l').
Proof.
  intros Hl Hl'. induction Hl as [| a l Ha Hl IH]; simpl.
  - constructor.
  - apply NoDup_app.
    + apply Finite.Injective_map_NoDup; [| exact Hl'].
      intros x y E. inversion E. reflexivity.
    + exact IH.
    + intros [x y] H1 H2. apply in_map_iff in H1. destruct H1 as [z [E _]].
      apply in_prod_iff in H2. destruct H2 as [H2 _].
      injection E as <- _. exact (Ha H2).
Qed.

Lemma unstack_keys_from {V} (g : string * V -> string * V -> option Q)
      (cols1 cols2 : list (string * V)) :
  map fst (flat_map (fun b => map (fun a => ((fst b, fst a), g a b)) cols2) cols1)
  = list_prod (map fst cols1) (map fst cols2).
Proof.
  induction cols1 as [| b cols1 IH]; simpl.
  - reflexivity.
  - rewrite map_app, IH, !map_map. reflexivity.
Qed.

Lemma unstack_keys (df : DataFrame) :
  map fst (corr_abs_unstack df) = list_prod (select_dtypes df) (select_dtypes df).
Proof.
  unfold corr_abs_unstack.
  rewrite (unstack_keys_from (fun a b => option_map Qabs (corr (snd a) (snd b)))).
  rewrite numeric_columns_names. reflexivity.
Qed.

Lemma select_dtypes_NoDup (df : DataFrame) :
  NoDup (names df) -> NoDup (select_dtypes df).
Proof. apply distinct_keys_filter. Qed.

(** An entry of the matrix on the diagonal is 1 or NaN. *)
Lemma unstack_diagonal (df : DataFrame) (a : string) (v : option Q) :
  NoDup (names df) -> In ((a, a), v) (corr_abs_unstack df) ->
  v = None \/ exists q, v = Some q /\ q == 1.
Proof.
  intros Hn H. unfold corr_abs_unstack in H.
  apply in_flat_map in H. destruct H as [cb [Hb H]].
  apply in_map_iff in H. destruct H as [ca [E Ha]].
  injection E as Eb Ea Ev.
  assert (ca = cb) as ->.
  { apply (NoDup_map_eq fst (numeric_columns df)); try assumption.
    - rewrite numeric_columns_names. apply select_dtypes_NoDup, Hn.
    - congruence. }
  destruct (corr_self (snd cb)) as [En | [q [Eq Hq]]].
  - left. rewrite <- Ev, En. reflexivity.
  - right. rewrite <- Ev, Eq. simpl. eexists. split; [reflexivity |].
    rewrite Hq. reflexivity.
Qed.

Lemma lt_one_unkeyed (s : pair_series) : lt_one (unkeyed snd s) = [].
Proof.
  unfold lt_one, unkeyed. induction s as [| [k [q |]] s IH]; simpl; auto.
Qed.

(** The ranking before the cut: the entries below 1 of the sorted part. *)
Lemma top_correlations_eq (data : DataFrame) (limit : nat) :
  Enhanced.top_correlations data limit
  = firstn limit
      (dropna_series
         (lt_one (map snd (isort descending (keyed snd (corr_abs_unstack data)))))).
Proof.
  unfold Enhanced.top_correlations, head, sort_values_desc, sort_by.
  unfold lt_one at 1. rewrite filter_app. fold (lt_one (unkeyed snd (corr_abs_unstack data))).
  rewrite lt_one_unkeyed, app_nil_r. reflexivity.
Qed.

Lemma top_correlations_incl (data : DataFrame) (limit : nat) (e : (string * string) * option Q) :
  In e (Enhanced.top_correlations data limit) ->
  In e (corr_abs_unstack data)
  /\ exists q, snd e = Some q /\ q < 1.
Proof.
  unfold Enhanced.top_correlations, head, dropna_series, lt_one, sort_values_desc.
  intros H. apply firstn_incl in H.
  apply filter_In in H. destruct H as [H _].
  apply filter_In in H. destruct H as [H Hlt].
  split.
  - eapply Permutation_in; [apply sort_by_perm | exact H].
  - destruct (snd e) as [q |]; [| discriminate].
    exists q. split; [reflexivity |].
    apply Qnot_le_lt. intros Hle. apply Qle_bool_iff in Hle.
    rewrite Hle in Hlt. discriminate.
Qed.

Example corr_matrix_probe :
  Enhanced.corr_matrix probe
  = [(("thrust", "torque")%string, Some (1 # 4)); (("torque", "thrust")%string, Some (1 # 4))].
Proof. reflexivity. Qed.

Example corr_matrix_collinear :
  Enhanced.corr_matrix collinear
  = [(("thrust", "velocity")%string, Some (1 # 4));
     (("torque", "velocity")%string, Some (1 # 4));
     (("velocity", "thrust")%string, Some (1 # 4));
     (("velocity", "torque")%string, Some (1 # 4))].
Proof. reflexivity. Qed.

(** C1, as the code has it: with distinct column names, the ranking holds
    each ordered pair of numeric columns at most once, no pair of a column
    with itself, at most [limit] entries, and it is sorted by non-increasing
    absolute coefficient. *)
Theorem top_correlations_ranked (data : DataFrame) (limit : nat) :
  NoDup (names data) ->
  NoDup (map fst (Enhanced.top_correlations data limit))
  /\ (forall a b v, In ((a, b), v) (Enhanced.top_correlations data limit) -> a <> b)
  /\ StronglySorted (key_ordered (fun p q => q <= p) snd)
                    (Enhanced.top_correlations data limit)
  /\ (length (Enhanced.top_correlations data limit) <= limit)%nat.
Proof.
  intros Hn. split; [| split; [| split]].
  - unfold Enhanced.top_correlations, head, dropna_series, lt_one, sort_values_desc.
    apply distinct_keys_firstn. do 2 apply distinct_keys_filter.
    eapply Permutation_NoDup.
    + apply Permutation_map, Permutation_sym, sort_by_perm.
    + rewrite unstack_keys.
      apply NoDup_list_prod; apply select_dtypes_NoDup, Hn.
  - intros a b v H E. subst b.
    apply top_correlations_incl in H. destruct H as [Hin [q [Hv Hlt]]].
    simpl in Hv. subst v.
    destruct (unstack_diagonal _ _ _ Hn Hin) as [Hnone | [q' [Hq' H1]]].
    + discriminate.
    + injection Hq' as <-. rewrite H1 in Hlt. discriminate Hlt.
  - rewrite top_correlations_eq.
    apply StronglySorted_firstn. unfold dropna_series, lt_one.
    do 2 apply StronglySorted_filter.
    apply sorted_part_descending.
  - unfold Enhanced.top_correlations, head. apply firstn_le_length.
Qed.

Lemma top_correlations_ranked_witness :
  NoDup (map fst (Enhanced.top_correlations probe 5))
  /\ (forall a b v, In ((a, b), v) (Enhanced.top_correlations probe 5) -> a <> b)
  /\ StronglySorted (key_ordered (fun p q => q <= p) snd)
                    (Enhanced.top_correlations probe 5)
  /\ (length (Enhanced.top_correlations probe 5) <= 5)%nat.
Proof.
  apply (top_correlations_ranked probe 5).
  repeat constructor; simpl; intuition discriminate.
Defined.

(** C1, as stated, fails: the ranking of [probe] lists the one pair of its
    numeric columns twice, as thrust - torque and as torque - thrust. *)
Lemma top_correlations_lists_both_orders :
  In (("thrust", "torque")%string, Some (1 # 4)) (Enhanced.top_correlations probe 5)
  /\ In (("torque", "thrust")%string, Some (1 # 4)) (Enhanced.top_correlations probe 5)
  /\ Enhanced.top_correlations probe 5
     = [(("thrust", "torque")%string, Some (1 # 4));
        (("torque", "thrust")%string, Some (1 # 4))].
Proof.
  assert (E : Enhanced.top_correlations probe 5
              = [(("thrust", "torque")%string, Some (1 # 4));
                 (("torque", "thrust")%string, Some (1 # 4))]) by reflexivity.
  rewrite E. split; [left; reflexivity |].
  split; [right; left; reflexivity | reflexivity].
Qed.


(** * Further properties of the two applications *)

(** ** Finding the chainage column *)

Lemma prefix_append (sub s : string) :
  String.prefix sub s = true <-> exists post, s = String.append sub post.
Proof.
  revert s. induction sub as [| a sub IH]; intros s.
  - destruct s; simpl; split; eauto.
  - destruct s as [| b s]; simpl.
    + split; [discriminate | intros [post H]; discriminate].
    + destruct (Ascii.ascii_dec a b) as [<- | Hne].
      * rewrite IH. split; intros [post H]; exists post; simpl; congruence.
      * split; [discriminate | intros [post H]; congruence].
Qed.

Lemma has_substring_occurs (sub s : string) :
  App.has_substring sub s = true <-> occurs_in sub s.
Proof.
  unfold occurs_in. induction s as [| a s IH].
  - change (App.has_substring sub EmptyString)
      with (String.prefix sub EmptyString || false).
    rewrite orb_false_r, prefix_append. split.
    + intros [post H]. exists EmptyString, post. exact H.
    + intros [[| b pre] [post H]]; [eauto | discriminate].
  - change (App.has_substring sub (String a s))
      with (String.prefix sub (String a s) || App.has_substring sub s).
    rewrite orb_true_iff, prefix_append, IH. split.
    + intros [[post H] | [pre [post H]]].
      * exists EmptyString, post. exact H.
      * exists (String a pre), post. simpl. congruence.
    + intros [[| b pre] [post H]].
      * left. exists post. exact H.
      * right. exists pre, post. simpl in H. congruence.
Qed.

Lemma find_first {A} (p : A -> bool) (l : list A) :
  match find p l with
  | Some x => exists before after,
      l = before ++ x :: after /\ p x = true /\ Forall (fun y => p y = false) before
  | None => Forall (fun y => p y = false) l
  end.
Proof.
  induction l as [| a l IH]; simpl.
  - constructor.
  - destruct (p a) eqn:E.
    + exists [], l. repeat split; [exact E | constructor].
    + destruct (find p l) as [x |].
      * destruct IH as [before [after [-> [Hx Hb]]]].
        exists (a :: before), after. repeat split; [exact Hx |].
        constructor; assumption.
      * constructor; assumption.
Qed.

Lemma not_has_substring (sub : string) (l : list string) :
  Forall (fun y => App.has_substring sub y = false) l
  <-> Forall (fun y => ~ occurs_in sub y) l.
Proof.
  rewrite !Forall_forall. split; intros H y Hy.
  - rewrite <- has_substring_occurs. rewrite (H y Hy). discriminate.
  - apply not_true_is_false. rewrite has_substring_occurs. apply (H y Hy).
Qed.

(** X1: the chainage column is the first column, in the order of the
    header, whose name contains "chain"; there is none exactly when no name
    contains it. *)
Theorem chain_col_first_match (data : DataFrame) :
  match App.chain_col data with
  | Some c => exists before after,
      names data = before ++ c :: after
      /\ occurs_in "chain" c
      /\ Forall (fun y => ~ occurs_in "chain" y) before
  | None => Forall (fun y => ~ occurs_in "chain" y) (names data)
  end.
Proof.
  unfold App.chain_col.
  pose proof (find_first (App.has_substring "chain") (names data)) as H.
  destruct (find _ _) as [c |].
  - destruct H as [before [after [E [Hc Hb]]]].
    exists before, after. split; [exact E |].
    split; [apply has_substring_occurs, Hc | apply not_has_substring, Hb].
  - apply not_has_substring, H.
Qed.

Lemma sort_by_length {A} (leb : Q * A -> Q * A -> bool) (key : A -> option Q)
      (l : list A) :
  length (sort_by leb key l) = length l.
Proof. apply Permutation_length, sort_by_perm. Qed.

(** X2: without a column whose name contains "chain" the normalizer stops
    the run; with one it returns, under the same column names and with at
    most as many rows as it was given, together with the name of the
    chainage column: the first name of the header that contains "chain". *)
Theorem normalize_stops_or_returns (data : DataFrame) :
  (Forall (fun y => ~ occurs_in "chain" y) (names data) ->
   App.normalize data = Raised StopException)
  /\ (Exists (occurs_in "chain") (names data) ->
      exists out c before after,
        App.normalize data = Returned (out, c)
        /\ names data = before ++ c :: after
        /\ occurs_in "chain" c
        /\ Forall (fun y => ~ occurs_in "chain" y) before
        /\ names out = names data
        /\ (len out <= len data)%nat).
Proof.
  pose proof (find_first (App.has_substring "chain") (names data)) as H.
  fold (App.chain_col data) in H.
  split.
  - intros Hno. unfold App.normalize.
    destruct (App.chain_col data) as [c |]; [| reflexivity].
    destruct H as [before [after [E [Hc _]]]].
    rewrite Forall_forall in Hno. exfalso. apply (Hno c).
    + rewrite E. apply in_elt.
    + apply has_substring_occurs, Hc.
  - intros Hex. destruct (App.chain_col data) as [c |] eqn:Ec.
    + destruct (chain_col_loc _ _ Ec) as [i Hi].
      destruct (normalize_eq _ _ _ Ec Hi) as [cols [E Hn]].
      destruct H as [before [after [En [Hc Hb]]]].
      eexists. exists c, before, after. split; [exact E |].
      split; [exact En |].
      split; [apply has_substring_occurs, Hc |].
      split; [apply not_has_substring, Hb |].
      split; [exact Hn |].
      unfold len, normalized_rows. cbn [rows]. rewrite sort_by_length.
      eapply Nat.le_trans; [apply filter_length_le |].
      rewrite length_map. apply Nat.le_refl.
    + exfalso. apply Exists_exists in Hex. destruct Hex as [y [Hy Hoc]].
      apply not_has_substring in H. rewrite Forall_forall in H.
      exact (H y Hy Hoc).
Qed.

Lemma normalize_stops_or_returns_witness :
  (exists out c before after,
      App.normalize one_numeric = Returned (out, c)
      /\ names one_numeric = before ++ c :: after
      /\ occurs_in "chain" c
      /\ Forall (fun y => ~ occurs_in "chain" y) before
      /\ names out = names one_numeric
      /\ (len out <= len one_numeric)%nat)
  /\ App.normalize {| columns := [("depth"%string, Numeric)]; rows := [[Num 1]] |}
     = Raised StopException.
Proof.
  split.
  - apply (proj2 (normalize_stops_or_returns one_numeric)).
    left. exists EmptyString, "age"%string. reflexivity.
  - apply (proj1 (normalize_stops_or_returns
                    {| columns := [("depth"%string, Numeric)]; rows := [[Num 1]] |})).
    repeat constructor. intros [pre [post H]].
    destruct pre as [| a0 [| a1 [| a2 [| a3 [| a4 [| a5 pre]]]]]];
      simpl in H; discriminate H.
Defined.

(** ** Which texts make a chainage *)

Lemma is_digit_not_dot (c : N) : is_digit c = true -> (c =? 46)%N = false.
Proof.
  unfold is_digit. intros H. apply andb_true_iff in H. destruct H as [H _].
  apply N.leb_le in H. apply N.eqb_neq. lia.
Qed.

Lemma split_dot_spec (t : str) :
  Forall (fun c => keep_char c = true) t ->
  let (ip, fp) := split_dot t in
  forallb is_digit ip = true
  /\ match fp with
     | None => t = ip
     | Some fr => t = ip ++ 46%N :: fr
     end.
Proof.
  induction 1 as [| c t Hc Ht IH]; simpl.
  - auto.
  - destruct (N.eqb_spec c 46) as [-> | Hne].
    + auto.
    + destruct (split_dot t) as [ip fp]. destruct IH as [Hip Hfp].
      assert (Hd : is_digit c = true).
      { unfold keep_char in Hc. apply orb_true_iff in Hc. destruct Hc as [Hc | Hc].
        - exact Hc.
        - apply N.eqb_eq in Hc. contradiction. }
      simpl. rewrite Hd, Hip. split; [reflexivity |].
      destruct fp; rewrite Hfp; reflexivity.
Qed.

Lemma all_digits_no_dots (l : str) :
  Forall (fun c => keep_char c = true) l ->
  forallb is_digit l = Nat.eqb (count_dots l) 0.
Proof.
  unfold count_dots. induction 1 as [| c l Hc Hl IH]; simpl.
  - reflexivity.
  - unfold keep_char in Hc. destruct (is_digit c) eqn:Ed.
    + rewrite (is_digit_not_dot _ Ed). exact IH.
    + simpl in Hc. rewrite Hc. reflexivity.
Qed.

Lemma all_digits_exists (l : str) :
  forallb is_digit l = true ->
  existsb is_digit l = negb (Nat.eqb (length l) 0).
Proof.
  destruct l as [| c l]; simpl.
  - reflexivity.
  - intros H. apply andb_true_iff in H. destruct H as [-> _]. reflexivity.
Qed.

Lemma all_digits_count (l : str) : forallb is_digit l = true -> count_dots l = 0%nat.
Proof.
  unfold count_dots. induction l as [| c l IH]; simpl.
  - reflexivity.
  - intros H. apply andb_true_iff in H. destruct H as [Hc Hl].
    rewrite (is_digit_not_dot _ Hc). apply IH, Hl.
Qed.

Lemma Forall_keep_app_inv (a b : str) (c : N) :
  Forall (fun x => keep_char x = true) (a ++ c :: b) ->
  Forall (fun x => keep_char x = true) b.
Proof.
  intros H. apply Forall_app in H. destruct H as [_ H].
  inversion H; assumption.
Qed.

(** [float] on a text of digits and dots: a number exactly when the text
    has a digit and at most one dot. *)
Lemma float_accepts (t : str) :
  Forall (fun c => keep_char c = true) t ->
  (exists q, float t = Returned q)
  <-> existsb is_digit t = true /\ (count_dots t <= 1)%nat.
Proof.
  intros Ht. pose proof (split_dot_spec t Ht) as H. unfold float.
  destruct (split_dot t) as [ip [fr |]]; destruct H as [Hip E].
  - pose proof (Forall_keep_app_inv _ _ _ (eq_ind _ _ Ht _ E)) as Hfr.
    rewrite Hip, (all_digits_no_dots fr Hfr). cbn [andb].
    rewrite E, existsb_app. unfold count_dots in *.
    rewrite filter_app, length_app. simpl.
    fold (count_dots ip). rewrite (all_digits_count ip Hip).
    rewrite (all_digits_exists ip Hip). simpl.
    destruct (Nat.eqb_spec (length (filter (fun c => (c =? 46)%N) fr)) 0) as [E0 | N0].
    + rewrite E0. cbn [andb].
      assert (Hd : forallb is_digit fr = true).
      { rewrite (all_digits_no_dots fr Hfr). unfold count_dots. rewrite E0. reflexivity. }
      rewrite (all_digits_exists fr Hd).
      destruct ip as [| a ip], fr as [| b fr]; simpl; split;
        try (intros [q Hq]; discriminate Hq);
        try (intros [Hq _]; discriminate Hq);
        try (intros _; split; [reflexivity | lia]);
        try (intros _; eexists; reflexivity).
    + cbn [andb]. split; [intros [q Hq]; discriminate Hq | intros [_ Hle]; lia].
  - subst ip. rewrite Hip. cbn [andb].
    rewrite (all_digits_exists t Hip), (all_digits_count t Hip).
    destruct t as [| a t]; simpl; split;
      try (intros [q Hq]; discriminate Hq);
      try (intros [Hq _]; discriminate Hq);
      try (intros _; split; [reflexivity | lia]);
      try (intros _; eexists; reflexivity).
Qed.

Lemma strip_keeps (s : str) :
  Forall (fun c => keep_char c = true) (App.strip_non_numeric s).
Proof.
  unfold App.strip_non_numeric. rewrite Forall_forall. intros c Hc.
  apply filter_In in Hc. apply Hc.
Qed.

Lemma strip_digits_dots (s : str) :
  existsb is_digit (App.strip_non_numeric s) = existsb is_digit s
  /\ count_dots (App.strip_non_numeric s) = count_dots s.
Proof.
  unfold App.strip_non_numeric, count_dots.
  induction s as [| c s [IH1 IH2]]; simpl.
  - auto.
  - destruct (is_digit c) eqn:Ed; simpl.
    + rewrite Ed, (is_digit_not_dot _ Ed). simpl. auto.
    + destruct (c =? 46)%N eqn:E46; simpl.
      * rewrite Ed, E46. simpl. auto.
      * auto.
Qed.

(** X3: a text cell becomes a chainage exactly when it holds at least one
    digit and at most one dot, whatever else is written around them; every
    other text is excluded. *)
Theorem clean_chainage_accepts (s : str) :
  ((exists q, App.clean_chainage (Text s) = Returned (Some q))
   <-> existsb is_digit s = true /\ (count_dots s <= 1)%nat)
  /\ (App.clean_chainage (Text s) = Returned None
      <-> existsb is_digit s = false \/ (2 <= count_dots s)%nat).
Proof.
  pose proof (float_accepts _ (strip_keeps s)) as H.
  destruct (strip_digits_dots s) as [E1 E2]. rewrite E1, E2 in H.
  rewrite clean_chainage_cleaned. unfold cleaned, Returned.
  destruct (float (App.strip_non_numeric s)) as [e | x].
  - assert (Hno : ~ (existsb is_digit s = true /\ (count_dots s <= 1)%nat)).
    { intros Hacc. apply H in Hacc. destruct Hacc as [q Hq]. discriminate Hq. }
    split; split.
    + intros [q Hq]. discriminate Hq.
    + intros Hacc. contradiction.
    + intros _. destruct (existsb is_digit s); [right | left; reflexivity].
      destruct (Nat.le_gt_cases (count_dots s) 1); [exfalso; auto | lia].
    + reflexivity.
  - assert (Hacc : existsb is_digit s = true /\ (count_dots s <= 1)%nat).
    { apply H. exists x. reflexivity. }
    split; split.
    + intros _. exact Hacc.
    + intros _. exists x. reflexivity.
    + intros Hq. discriminate Hq.
    + destruct Hacc as [Hd Hc]. intros [Hn | Hn]; [congruence | lia].
Qed.

Lemma digits_val_nonneg (ds : str) :
  forallb is_digit ds = true -> (0 <= digits_val ds)%Z.
Proof.
  unfold digits_val.
  assert (G : forall a, (0 <= a)%Z -> forallb is_digit ds = true ->
                        (0 <= fold_left (fun acc c => 10 * acc + digit_val c) ds a)%Z).
  { induction ds as [| c ds IH]; cbn [fold_left forallb]; intros a Ha Hd.
    - exact Ha.
    - apply andb_true_iff in Hd. destruct Hd as [Hc Hd]. apply IH; [| exact Hd].
      unfold is_digit in Hc. apply andb_true_iff in Hc. destruct Hc as [Hc _].
      apply N.leb_le in Hc. unfold digit_val. lia. }
  intros Hd. apply G; [lia | exact Hd].
Qed.

Lemma float_nonneg (t : str) (q : Q) : float t = Returned q -> 0 <= q.
Proof.
  unfold float. destruct (split_dot t) as [ip [fr |]].
  - destruct (forallb is_digit ip) eqn:Hip; [| discriminate].
    destruct (forallb is_digit fr) eqn:Hfr; [| discriminate].
    cbn [andb]. destruct (negb _); [| discriminate].
    set (v := Qred _). intros H. injection H as <-. subst v.
    apply (proj2 (Qle_comp _ _ (Qeq_refl 0) _ _ (Qred_correct _))).
    unfold Qle. simpl. rewrite Z.mul_1_r. apply digits_val_nonneg.
    rewrite forallb_app, Hip, Hfr. reflexivity.
  - destruct (forallb is_digit ip) eqn:Hip; [| discriminate].
    cbn [andb]. destruct (negb _); [| discriminate].
    intros H. injection H as <-.
    unfold Qle. simpl. rewrite Z.mul_1_r. apply digits_val_nonneg, Hip.
Qed.

(** X4: a chainage read from a text is never negative: a minus sign is
    among the characters the cleaning removes. *)
Theorem clean_chainage_text_nonnegative (s : str) (q : Q) :
  App.clean_chainage (Text s) = Returned (Some q) -> 0 <= q.
Proof.
  rewrite clean_chainage_cleaned. unfold cleaned, Returned.
  destruct (float (App.strip_non_numeric s)) as [e | x] eqn:E; [discriminate |].
  intros H. injection H as <-. apply (float_nonneg _ _ E).
Qed.

Lemma clean_chainage_text_nonnegative_witness :
  App.clean_chainage (Text (lit "-12.5")) = Returned (Some (25 # 2))
  /\ 0 <= 25 # 2.
Proof.
  split; [reflexivity |].
  apply (clean_chainage_text_nonnegative (lit "-12.5")). reflexivity.
Defined.

(** ** The range filter on a normalized table *)

Lemma filtered_inv (data out : DataFrame) (c : string) (lo hi : Q) :
  App.filtered data c (lo, hi) = Returned out ->
  exists i, get_loc data c = Some i
    /\ columns out = columns data
    /\ rows out = filter (fun r => ge_bound lo (cell i r) && le_bound hi (cell i r))
                         (rows data).
Proof.
  unfold App.filtered. destruct (get_loc data c) as [i |]; [| discriminate].
  intros H. injection H as <-. exists i. auto.
Qed.

Lemma normalized_rows_sorted (i : nat) (rs : list row) :
  StronglySorted (key_ordered Qle (fun r => as_number (cell i r)))
                 (normalized_rows i rs).
Proof.
  unfold normalized_rows, sort_by.
  rewrite unkeyed_nil, app_nil_r by apply cleaned_rows_have_chainage.
  apply sorted_part_ascending.
Qed.

Lemma normalized_rows_numeric (i : nat) (rs : list row) :
  Forall (fun r => exists v, cell i r = Num v) (normalized_rows i rs).
Proof.
  unfold normalized_rows.
  eapply Permutation_Forall; [apply Permutation_sym, sort_by_perm |].
  eapply Forall_impl; [| apply cleaned_rows_have_chainage].
  intros r Hr. simpl in Hr. destruct (cell i r) as [| q |]; simpl in Hr;
    try congruence. exists q. reflexivity.
Qed.

(** X5: filtering a normalized table keeps it sorted by chainage, and every
    row that is left has a chainage inside the selected range. *)
Theorem filtered_normalized_sorted (data d out : DataFrame) (c : string) (lo hi : Q) :
  App.normalize data = Returned (d, c) ->
  App.filtered d c (lo, hi) = Returned out ->
  exists i,
    get_loc out c = Some i
    /\ StronglySorted (key_ordered Qle (fun r => as_number (cell i r))) (rows out)
    /\ Forall (fun r => exists v, cell i r = Num v /\ lo <= v /\ v <= hi) (rows out).
Proof.
  intros Hn Hf.
  destruct (normalize_inv _ _ _ Hn) as [i [_ [Hi Hr]]].
  destruct (filtered_inv _ _ _ _ _ Hf) as [j [Hj [Hc Hrows]]].
  assert (j = i) by congruence. subst j.
  exists i. split; [| split].
  - unfold get_loc, names. rewrite Hc. exact Hi.
  - rewrite Hrows, Hr. apply StronglySorted_filter, normalized_rows_sorted.
  - rewrite Hrows, Forall_forall. intros r Hin.
    apply filter_In in Hin. destruct Hin as [_ Hb].
    apply in_bounds_iff in Hb. exact Hb.
Qed.

Lemma filtered_normalized_sorted_witness :
  exists i,
    get_loc {| columns := columns survey_sorted;
               rows := [[Num 120; Num 6]; [Num 140; Num 7]] |} "chainage" = Some i
    /\ StronglySorted (key_ordered Qle (fun r => as_number (cell i r)))
                      [[Num 120; Num 6]; [Num 140; Num 7]]
    /\ Forall (fun r => exists v, cell i r = Num v /\ 110 <= v /\ v <= 150)
              [[Num 120; Num 6]; [Num 140; Num 7]].
Proof.
  apply (filtered_normalized_sorted survey survey_sorted
           {| columns := columns survey_sorted;
              rows := [[Num 120; Num 6]; [Num 140; Num 7]] |}
           "chainage" 110 150); reflexivity.
Defined.

Lemma series_min_le (s : list (option Q)) (m q : Q) :
  series_min s = Some m -> In (Some q) s -> m <= q.
Proof.
  unfold series_min. revert m. induction s as [| o s IH]; simpl; intros m Hm Hin.
  - contradiction.
  - destruct o as [a |]; simpl in Hm.
    + destruct (fold_right (pick Qle_bool) None s) as [b |] eqn:Eb.
      * injection Hm as <-. destruct Hin as [Hq | Hin].
        -- injection Hq as <-. destruct (Qle_bool a b) eqn:E.
           ++ apply Qle_refl.
           ++ destruct (Qlt_le_dec a b) as [Hlt | Hle]; [| exact Hle].
              apply Qlt_le_weak, Qle_bool_iff in Hlt. congruence.
        -- specialize (IH b eq_refl Hin). destruct (Qle_bool a b) eqn:E.
           ++ apply Qle_bool_iff in E. eapply Qle_trans; eassumption.
           ++ exact IH.
      * injection Hm as <-. destruct Hin as [Hq | Hin].
        -- injection Hq as <-. apply Qle_refl.
        -- exfalso. clear - Eb Hin. induction s as [| o s IH]; simpl in *.
           ++ contradiction.
           ++ destruct Hin as [-> | Hin]; simpl in Eb.
              ** destruct (fold_right (pick Qle_bool) None s); discriminate.
              ** destruct o; simpl in Eb;
                   [destruct (fold_right (pick Qle_bool) None s); discriminate | auto].
    + destruct Hin as [Hq | Hin]; [discriminate | auto].
Qed.

Lemma series_max_ge (s : list (option Q)) (m q : Q) :
  series_max s = Some m -> In (Some q) s -> q <= m.
Proof.
  unfold series_max. set (better := fun a b => Qle_bool b a).
  revert m. induction s as [| o s IH]; simpl; intros m Hm Hin.
  - contradiction.
  - destruct o as [a |]; simpl in Hm.
    + destruct (fold_right (pick better) None s) as [b |] eqn:Eb.
      * injection Hm as <-. unfold better at 1. destruct Hin as [Hq | Hin].
        -- injection Hq as <-. destruct (Qle_bool b a) eqn:E.
           ++ apply Qle_refl.
           ++ destruct (Qlt_le_dec b a) as [Hlt | Hle]; [| exact Hle].
              apply Qlt_le_weak, Qle_bool_iff in Hlt. congruence.
        -- specialize (IH b eq_refl Hin). destruct (Qle_bool b a) eqn:E.
           ++ apply Qle_bool_iff in E. eapply Qle_trans; eassumption.
           ++ exact IH.
      * injection Hm as <-. destruct Hin as [Hq | Hin].
        -- injection Hq as <-. apply Qle_refl.
        -- exfalso. clear - Eb Hin. induction s as [| o s IH]; simpl in *.
           ++ contradiction.
           ++ destruct Hin as [-> | Hin]; simpl in Eb.
              ** destruct (fold_right (pick better) None s); discriminate.
              ** destruct o; simpl in Eb;
                   [destruct (fold_right (pick better) None s); discriminate | auto].
    + destruct Hin as [Hq | Hin]; [discriminate | auto].
Qed.

Lemma filter_all {A} (f : A -> bool) (l : list A) :
  Forall (fun a => f a = true) l -> filter f l = l.
Proof.
  induction 1 as [| a l Ha Hl IH]; simpl; [| rewrite Ha, IH]; reflexivity.
Qed.

(** X6: with the slider left at its two ends, the least and the greatest
    chainage of the normalized table, the filter hands the table back
    unchanged. *)
Theorem filtered_full_range (data d : DataFrame) (c : string) (min_c max_c : Q) :
  App.normalize data = Returned (d, c) ->
  App.chainage_bounds d c = Returned (Some min_c, Some max_c) ->
  App.filtered d c (min_c, max_c) = Returned d.
Proof.
  intros Hn Hb.
  destruct (normalize_inv _ _ _ Hn) as [i [_ [Hi Hr]]].
  unfold App.chainage_bounds, getitem in Hb. rewrite Hi in Hb.
  cbn [bind Monad_either Returned ret] in Hb. injection Hb as Hmin Hmax.
  unfold App.filtered. rewrite Hi. cbn [fst snd].
  rewrite filter_all.
  - destruct d. reflexivity.
  - pose proof (normalized_rows_numeric i (rows data)) as Hnum.
    rewrite <- Hr in Hnum. rewrite Forall_forall in *. intros r Hin.
    destruct (Hnum r Hin) as [v Hv].
    apply in_bounds_iff. exists v. split; [exact Hv |].
    assert (Hs : In (Some v) (map as_number (column_at d i))).
    { unfold column_at. rewrite map_map. apply in_map_iff. exists r.
      rewrite Hv. auto. }
    split; [eapply series_min_le | eapply series_max_ge]; eassumption.
Qed.

Lemma filtered_full_range_witness :
  App.filtered survey_sorted "chainage" (100, 160) = Returned survey_sorted.
Proof.
  apply (filtered_full_range survey survey_sorted "chainage" 100 160); reflexivity.
Defined.

Lemma filter_filter_narrow {A} (f g : A -> bool) (l : list A) :
  (forall a, g a = true -> f a = true) -> filter g (filter f l) = filter g l.
Proof.
  intros H. induction l as [| a l IH]; simpl.
  - reflexivity.
  - destruct (f a) eqn:Ef; simpl.
    + rewrite IH. reflexivity.
    + destruct (g a) eqn:Eg; [| exact IH].
      apply H in Eg. congruence.
Qed.

(** X7: narrowing in two steps is narrowing in one: filtering the result
    of a filter to a range inside the first one gives what the inner range
    gives on the table itself; in particular, filtering twice with the same
    range changes nothing. *)
Theorem filtered_nested (data out : DataFrame) (c : string) (lo hi lo' hi' : Q) :
  lo <= lo' -> hi' <= hi ->
  App.filtered data c (lo, hi) = Returned out ->
  App.filtered out c (lo', hi') = App.filtered data c (lo', hi')
  /\ App.filtered out c (lo, hi) = Returned out.
Proof.
  intros Hlo Hhi Hf.
  destruct (filtered_inv _ _ _ _ _ Hf) as [i [Hi [Hc Hr]]].
  assert (Hi' : get_loc out c = Some i).
  { unfold get_loc, names. rewrite Hc. exact Hi. }
  unfold App.filtered. rewrite Hi, Hi', Hc, Hr. cbn [fst snd].
  split; f_equal; [f_equal | destruct out; cbn [columns rows] in *; subst; f_equal].
  - apply filter_filter_narrow. intros r Hb.
    apply in_bounds_iff in Hb. destruct Hb as [v [Hv [H1 H2]]].
    apply in_bounds_iff. exists v. split; [exact Hv |].
    split; eapply Qle_trans; eassumption.
  - apply filter_filter_narrow. auto.
Qed.

Lemma filtered_nested_witness :
  App.filtered {| columns := columns survey_sorted;
                  rows := [[Num 120; Num 6]; [Num 140; Num 7]] |}
               "chainage" (130, 150)
  = App.filtered survey_sorted "chainage" (130, 150)
  /\ App.filtered {| columns := columns survey_sorted;
                     rows := [[Num 120; Num 6]; [Num 140; Num 7]] |}
                  "chainage" (110, 150)
     = Returned {| columns := columns survey_sorted;
                   rows := [[Num 120; Num 6]; [Num 140; Num 7]] |}.
Proof.
  apply (filtered_nested survey_sorted _ "chainage" 110 150 130 150);
    try reflexivity; unfold Qle; simpl; lia.
Defined.

(** ** The minimum shown by the enhanced application *)

Lemma contains_In (df : DataFrame) (c : string) :
  contains df c = true <-> In c (names df).
Proof.
  unfold contains. rewrite existsb_exists. split.
  - intros [x [Hx E]]. apply String.eqb_eq in E. subst x. exact Hx.
  - intros H. exists c. split; [exact H | apply String.eqb_refl].
Qed.

Lemma apply_total_in {A B} (f : A -> outcome B) (g : A -> B) (l : list A) :
  (forall a, In a l -> f a = Returned (g a)) -> apply f l = Returned (map g l).
Proof.
  induction l as [| a l IH]; simpl; intros Hf.
  - reflexivity.
  - rewrite Hf by (left; reflexivity). rewrite IH by auto. reflexivity.
Qed.

Lemma getitem_column_of (df : DataFrame) (c : string) :
  In c (names df) -> getitem df c = Returned (column_of df c).
Proof.
  intros H. unfold getitem, column_of.
  destruct (index_of_In _ _ H) as [i Hi]. unfold get_loc. rewrite Hi. reflexivity.
Qed.

Lemma select_dtypes_incl (df : DataFrame) (c : string) :
  In c (select_dtypes df) -> In c (names df).
Proof.
  unfold select_dtypes, names. intros H.
  apply in_map_iff in H. destruct H as [cd [E H]].
  apply filter_In in H. apply in_map_iff. exists cd. tauto.
Qed.

Lemma min_velocity_eq (data : DataFrame) :
  Enhanced.min_velocity data (select_dtypes data)
  = Returned (match select_dtypes data with
              | [] => Some 0
              | cs => series_min (map (fun c => series_min (map as_number (column_of data c))) cs)
              end).
Proof.
  unfold Enhanced.min_velocity.
  destruct (select_dtypes data) as [| c cs] eqn:E; [reflexivity |].
  change (0 <? length (c :: cs)) with true. cbv iota.
  rewrite (apply_total_in _ (column_of data)).
  - cbn [bind Monad_either Returned ret]. rewrite map_map. reflexivity.
  - intros a Ha. apply getitem_column_of, select_dtypes_incl. rewrite E. exact Ha.
Qed.


Lemma series_min_In (s : list (option Q)) (m : Q) :
  series_min s = Some m -> In (Some m) s.
Proof.
  unfold series_min. revert m. induction s as [| o s IH]; simpl; intros m Hm.
  - discriminate.
  - destruct o as [a |]; simpl in Hm; [| right; apply IH, Hm].
    destruct (fold_right (pick Qle_bool) None s) as [b |].
    + injection Hm as <-. destruct (Qle_bool a b); [left; reflexivity |].
      right. apply IH. reflexivity.
    + injection Hm as <-. left. reflexivity.
Qed.

Lemma series_min_defined (s : list (option Q)) (q : Q) :
  In (Some q) s -> exists m, series_min s = Some m.
Proof.
  unfold series_min. induction s as [| o s IH]; simpl; intros Hin.
  - contradiction.
  - destruct Hin as [-> | Hin]; simpl.
    + destruct (fold_right (pick Qle_bool) None s); eexists; reflexivity.
    + destruct (IH Hin) as [m ->]. destruct o; simpl; eexists; reflexivity.
Qed.

(** X9: what the enhanced application shows as the minimum velocity is the
    least number of the whole table: it is at most every number of every
    numeric column, the chainage among them, and it is one of them. *)
Theorem min_velocity_least_of_all (data : DataFrame) (m : Q) :
  select_dtypes data <> [] ->
  Enhanced.min_velocity data (select_dtypes data) = Returned (Some m) ->
  (forall c i r q,
      In c (select_dtypes data) -> get_loc data c = Some i ->
      In r (rows data) -> cell i r = Num q -> m <= q)
  /\ (exists c i r,
        In c (select_dtypes data) /\ get_loc data c = Some i
        /\ In r (rows data) /\ cell i r = Num m).
Proof.
  intros Hne H0. rewrite min_velocity_eq in H0.
  assert (H : series_min (map (fun c => series_min (map as_number (column_of data c)))
                              (select_dtypes data)) = Some m).
  { destruct (select_dtypes data); [contradiction | injection H0 as H0; exact H0]. }
  clear H0 Hne. split.
  - intros c i r q Hc Hi Hr Hq.
    assert (Hin : In (Some q) (map as_number (column_of data c))).
    { unfold column_of, column_at. rewrite Hi, map_map.
      apply in_map_iff. exists r. rewrite Hq. auto. }
    destruct (series_min_defined _ _ Hin) as [mc Hmc].
    eapply Qle_trans; [| apply (series_min_le _ _ _ Hmc Hin)].
    apply (series_min_le _ _ _ H).
    apply in_map_iff. exists c. auto.
  - apply series_min_In in H. apply in_map_iff in H.
    destruct H as [c [Hmc Hc]]. apply series_min_In in Hmc.
    unfold column_of in Hmc.
    destruct (get_loc data c) as [i |] eqn:Hi; [| contradiction].
    unfold column_at in Hmc. rewrite map_map in Hmc.
    apply in_map_iff in Hmc. destruct Hmc as [r [Hv Hr]].
    exists c, i, r. repeat split; try assumption.
    apply as_number_Some, Hv.
Qed.

Lemma min_velocity_least_of_all_witness :
  (forall c i r q,
      In c (select_dtypes survey) -> get_loc survey c = Some i ->
      In r (rows survey) -> cell i r = Num q -> 5 <= q)
  /\ (exists c i r,
        In c (select_dtypes survey) /\ get_loc survey c = Some i
        /\ In r (rows survey) /\ cell i r = Num 5).
Proof.
  apply (min_velocity_least_of_all survey 5); [discriminate | reflexivity].
Defined.

(** ** The weak-zone section *)

Lemma append_assoc_string (a b c : string) :
  String.append (String.append a b) c = String.append a (String.append b c).
Proof. induction a as [| x a IH]; simpl; [| rewrite IH]; reflexivity. Qed.

Section Joined.
Variable sub : string.
Hypothesis sub_spaceless : spaceless sub = true.
Hypothesis sub_not_empty : sub <> EmptyString.

Lemma before_space (w post c rest : string) :
  spaceless w = true ->
  String.append w post = String.append c (String " " rest) ->
  exists post', c = String.append w post'.
Proof.
  revert c. induction w as [| a w IH]; intros c Hw H.
  - exists c. reflexivity.
  - simpl in Hw. apply andb_true_iff in Hw. destruct Hw as [Ha Hw].
    destruct c as [| x c]; simpl in H.
    + injection H as -> _. discriminate Ha.
    + injection H as -> H. destruct (IH c Hw H) as [post' ->].
      exists post'. reflexivity.
Qed.

Lemma occurs_across_space (pre post c rest : string) :
  String.append pre (String.append sub post) = String.append c (String " " rest) ->
  occurs_in sub c \/ occurs_in sub rest.
Proof.
  revert pre. induction c as [| x c IH]; intros pre H.
  - destruct pre as [| a pre]; simpl in H.
    + destruct sub as [| a w]; [contradiction |].
      simpl in sub_spaceless, H. injection H as -> _. discriminate sub_spaceless.
    + injection H as _ H. right. exists pre, post. symmetry. exact H.
  - destruct pre as [| a pre].
    + left. destruct (before_space sub post (String x c) rest sub_spaceless H)
        as [post' E].
      exists EmptyString, post'. exact E.
    + simpl in H. injection H as _ H. destruct (IH pre H) as [[p [q E]] | Hr].
      * left. exists (String x p), q. simpl. rewrite E. reflexivity.
      * right. exact Hr.
Qed.

Lemma occurs_in_joined (l : list string) :
  occurs_in sub (Enhanced.join_space l) <-> Exists (occurs_in sub) l.
Proof.
  induction l as [| c t IH].
  - split.
    + intros [pre [post H]]. simpl in H.
      destruct pre; [destruct sub; [contradiction | discriminate] | discriminate].
    + intros H. inversion H.
  - destruct t as [| c2 t].
    + simpl. split.
      * intros H. left. exact H.
      * intros H. inversion H as [? ? Hc | ? ? Ht]; [exact Hc | inversion Ht].
    + change (Enhanced.join_space (c :: c2 :: t))
        with (String.append c (String " " (Enhanced.join_space (c2 :: t)))).
      split.
      * intros [pre [post H]]. symmetry in H.
        destruct (occurs_across_space _ _ _ _ H) as [Hc | Hr].
        -- left. exact Hc.
        -- right. apply IH, Hr.
      * intros H. inversion H as [? ? Hc | ? ? Ht]; subst.
        -- destruct Hc as [pre [post ->]].
           exists pre, (String.append post (String " " (Enhanced.join_space (c2 :: t)))).
           rewrite !append_assoc_string. reflexivity.
        -- apply IH in Ht. destruct Ht as [pre [post E]].
           exists (String.append c (String " " pre)), post.
           rewrite E, append_assoc_string. reflexivity.
Qed.
End Joined.

(** X10: the weak-zone section is drawn exactly when some column name
    contains "velocity", and then it holds a chart for each such column, in
    the order of the header, and for no other: the test on the joined
    header never opens a section without a chart. *)
Theorem weak_zone_charts_columns (data : DataFrame) :
  match Enhanced.weak_zone_charts data with
  | Some cols =>
      cols <> []
      /\ cols = filter (App.has_substring "velocity") (names data)
      /\ (forall c, In c cols <-> In c (names data) /\ occurs_in "velocity" c)
  | None => Forall (fun c => ~ occurs_in "velocity" c) (names data)
  end.
Proof.
  unfold Enhanced.weak_zone_charts.
  assert (Hj : App.has_substring "velocity" (Enhanced.join_space (names data)) = true
               <-> Exists (occurs_in "velocity") (names data)).
  { rewrite has_substring_occurs. apply occurs_in_joined; [reflexivity | discriminate]. }
  destruct (App.has_substring "velocity" (Enhanced.join_space (names data))).
  - assert (Hex : Exists (occurs_in "velocity") (names data)) by (apply Hj; reflexivity).
    assert (Hin : forall c, In c (filter (App.has_substring "velocity") (names data))
                            <-> In c (names data) /\ occurs_in "velocity" c).
    { intros c. rewrite filter_In, has_substring_occurs. reflexivity. }
    split; [| split; [reflexivity | exact Hin]].
    apply Exists_exists in Hex. destruct Hex as [c Hc].
    apply Hin in Hc. intros E. rewrite E in Hc. exact Hc.
  - rewrite Forall_forall. intros c Hc Hoc.
    assert (Hex : Exists (occurs_in "velocity") (names data)).
    { apply Exists_exists. exists c. auto. }
    apply Hj in Hex. discriminate Hex.
Qed.

(** ** The sanitizer, character by character *)

Ltac table_cases c :=
  repeat match goal with
         | |- context [(c =? ?k)%N] =>
             destruct (N.eqb_spec c k) as [-> | ?]; [vm_compute; reflexivity |];
             cbn [fold_left flat_map app fst snd find]
         end.

Lemma safe_text_char (c : N) : Enhanced.safe_text [c] = safe_char c.
Proof.
  unfold Enhanced.safe_text, safe_char, Enhanced.replacements, Enhanced.replace,
    Enhanced.decode_latin1, Enhanced.encode_latin1_replace.
  cbn [fold_left flat_map app fst snd find].
  table_cases c.
  cbn [map]. destruct (c <=? 255)%N; reflexivity.
Qed.

Lemma safe_text_cons (c : N) (text : str) :
  Enhanced.safe_text (c :: text) = safe_char c ++ Enhanced.safe_text text.
Proof.
  change (c :: text) with ([c] ++ text).
  rewrite safe_text_app, safe_text_char. reflexivity.
Qed.

(** X11: the eleven replacements, made one after the other over the whole
    text, amount to one pass that maps each character on its own: to its
    entry of the table, to itself when it is Latin-1, to '?' otherwise.  No
    replacement is replaced again, and the order of the table is immaterial. *)
Theorem safe_text_per_character (text : str) :
  Enhanced.safe_text text = flat_map safe_char text.
Proof.
  induction text as [| c text IH].
  - reflexivity.
  - rewrite safe_text_cons, IH. reflexivity.
Qed.

Lemma safe_char_plain (c : N) : Forall plain_char (safe_char c).
Proof.
  unfold safe_char, Enhanced.replacements. cbn [find fst snd].
  repeat match goal with
         | |- context [(c =? ?k)%N] =>
             destruct (N.eqb_spec c k) as [-> | ?];
             [repeat constructor; try (vm_compute; discriminate);
              cbn; intuition discriminate |]
         end.
  destruct (N.leb_spec c 255).
  - repeat constructor; [assumption |]. cbn. intuition congruence.
  - repeat constructor; [vm_compute; discriminate |]. cbn. intuition discriminate.
Qed.

Lemma plain_char_fixed (c : N) : plain_char c -> safe_char c = [c].
Proof.
  intros [Hle Hno]. unfold safe_char.
  destruct (find _ _) as [kv |] eqn:E.
  - apply find_some in E. destruct E as [Hin E]. apply N.eqb_eq in E.
    exfalso. apply Hno. rewrite E. apply in_map, Hin.
  - apply N.leb_le in Hle. rewrite Hle. reflexivity.
Qed.

Lemma plain_text_fixed (text : str) :
  Forall plain_char text -> Enhanced.safe_text text = text.
Proof.
  induction 1 as [| c text Hc Ht IH].
  - reflexivity.
  - rewrite safe_text_cons, (plain_char_fixed _ Hc), IH. reflexivity.
Qed.

Lemma safe_text_plain (text : str) : Forall plain_char (Enhanced.safe_text text).
Proof.
  induction text as [| c text IH].
  - constructor.
  - rewrite safe_text_cons. apply Forall_app.
    split; [apply safe_char_plain | exact IH].
Qed.

(** X12: the sanitizer leaves in its output no character of its table and
    no character beyond Latin-1, and sanitizing a sanitized text changes
    nothing. *)
Theorem safe_text_idempotent (text : str) :
  Forall (fun c => (c <= 255)%N /\ ~ In c (map fst Enhanced.replacements))
         (Enhanced.safe_text text)
  /\ Enhanced.safe_text (Enhanced.safe_text text) = Enhanced.safe_text text.
Proof.
  split; [apply safe_text_plain | apply plain_text_fixed, safe_text_plain].
Qed.

(** X13: an ASCII text, printable or not, comes back from the sanitizer
    character for character. *)
Theorem safe_text_ascii_unchanged (text : str) :
  Forall (fun c => (c <= 127)%N) text -> Enhanced.safe_text text = text.
Proof.
  intros H. apply plain_text_fixed.
  eapply Forall_impl; [| exact H].
  intros c Hc. cbv beta in Hc. split; [lia |].
  cbn. intros Hin.
  repeat (destruct Hin as [Hin | Hin]; [subst c; vm_compute in Hc; apply Hc; reflexivity |]).
  exact Hin.
Qed.

Lemma safe_text_ascii_unchanged_witness :
  Enhanced.safe_text (lit "Chainage Range: 110 - 150 m")
  = lit "Chainage Range: 110 - 150 m".
Proof.
  apply (safe_text_ascii_unchanged (lit "Chainage Range: 110 - 150 m")).
  repeat constructor; vm_compute; discriminate.
Defined.

Lemma safe_char_not_empty (c : N) : (1 <= length (safe_char c))%nat.
Proof.
  unfold safe_char, Enhanced.replacements. cbn [find fst snd].
  repeat match goal with
         | |- context [(c =? ?k)%N] =>
             destruct (N.eqb_spec c k) as [-> | ?]; [vm_compute; lia |]
         end.
  destruct (c <=? 255)%N; simpl; lia.
Qed.

(** X14: the sanitizer never drops a character: its output is at least as
    long as the text, and it is empty for the empty text only. *)
Theorem safe_text_never_shorter (text : str) :
  (length text <= length (Enhanced.safe_text text))%nat
  /\ (Enhanced.safe_text text = [] <-> text = []).
Proof.
  assert (H : (length text <= length (Enhanced.safe_text text))%nat).
  { induction text as [| c text IH].
    - simpl. lia.
    - rewrite safe_text_cons, length_app. simpl.
      pose proof (safe_char_not_empty c). lia. }
  split; [exact H |]. split.
  - intros E. rewrite E in H. destruct text; [reflexivity | simpl in H; lia].
  - intros ->. reflexivity.
Qed.

(** ** The ranking as a top-N list *)

Lemma top_is_prefix (data : DataFrame) (limit : nat) :
  Enhanced.top_correlations data limit = firstn limit (full_ranking data).
Proof. reflexivity. Qed.

Lemma full_ranking_In (data : DataFrame) (e : (string * string) * option Q) :
  In e (full_ranking data) <-> In e (corr_abs_unstack data) /\ eligible e.
Proof.
  unfold full_ranking, dropna_series, lt_one, sort_values_desc, eligible.
  rewrite !filter_In. split.
  - intros [[Hin Hlt] _]. split.
    + eapply Permutation_in; [apply sort_by_perm | exact Hin].
    + destruct (snd e) as [q |]; [| discriminate].
      exists q. split; [reflexivity |].
      apply Qnot_le_lt. intros Hle. apply Qle_bool_iff in Hle.
      rewrite Hle in Hlt. discriminate.
  - intros [Hin [q [E Hlt]]]. rewrite E. repeat split.
    + eapply Permutation_in; [apply Permutation_sym, sort_by_perm | exact Hin].
    + destruct (Qle_bool 1 q) eqn:Hb; [| reflexivity].
      apply Qle_bool_iff in Hb. exfalso. apply (Qlt_not_le _ _ Hlt Hb).
Qed.

Lemma full_ranking_sorted (data : DataFrame) :
  StronglySorted (key_ordered (fun p q => q <= p) snd) (full_ranking data).
Proof.
  unfold full_ranking, sort_values_desc, sort_by.
  unfold lt_one at 1. rewrite filter_app.
  fold (lt_one (unkeyed snd (corr_abs_unstack data))).
  rewrite lt_one_unkeyed, app_nil_r.
  unfold dropna_series. do 2 apply StronglySorted_filter.
  apply sorted_part_descending.
Qed.

Lemma full_ranking_length (data : DataFrame) :
  (length (full_ranking data) <= length (corr_abs_unstack data))%nat.
Proof.
  unfold full_ranking, dropna_series, lt_one, sort_values_desc.
  eapply Nat.le_trans; [apply filter_length_le |].
  eapply Nat.le_trans; [apply filter_length_le |].
  rewrite sort_by_length. apply Nat.le_refl.
Qed.

Lemma StronglySorted_app_inv {A} (R : A -> A -> Prop) (l1 l2 : list A) (a b : A) :
  StronglySorted R (l1 ++ l2) -> In a l1 -> In b l2 -> R a b.
Proof.
  induction l1 as [| x l1 IH]; simpl; intros Hs Ha Hb.
  - contradiction.
  - inversion Hs as [| ? ? Hs' Hx]; subst. destruct Ha as [-> | Ha].
    + rewrite Forall_forall in Hx. apply Hx, in_or_app. right. exact Hb.
    + apply IH; assumption.
Qed.

(** X15: the ranking is a top-N list: an entry it lists has an absolute
    coefficient at least as large as that of any entry below 1 of the
    matrix that it leaves out. *)
Theorem top_correlations_dominate (data : DataFrame) (limit : nat)
        (e e' : (string * string) * option Q) :
  In e (Enhanced.top_correlations data limit) ->
  In e' (corr_abs_unstack data) -> eligible e' ->
  ~ In e' (Enhanced.top_correlations data limit) ->
  exists q q', snd e = Some q /\ snd e' = Some q' /\ q' <= q.
Proof.
  rewrite top_is_prefix. intros He Hin Hel Hout.
  assert (Hfull : In e' (full_ranking data)) by (apply full_ranking_In; auto).
  pose proof (full_ranking_sorted data) as Hs.
  rewrite <- (firstn_skipn limit (full_ranking data)) in Hs, Hfull.
  apply in_app_or in Hfull. destruct Hfull as [Hf | Hf]; [contradiction |].
  exact (StronglySorted_app_inv _ _ _ _ _ Hs He Hf).
Qed.

Lemma top_correlations_dominate_witness :
  exists q q',
    snd (("thrust", "velocity")%string, Some (1 # 4)) = Some q
    /\ snd (("velocity", "torque")%string, Some (1 # 4)) = Some q' /\ q' <= q.
Proof.
  apply (top_correlations_dominate collinear 1).
  - vm_compute. tauto.
  - vm_compute. tauto.
  - exists (1 # 4). split; reflexivity.
  - vm_compute. intuition discriminate.
Defined.

(** X16: with a limit that does not cut, the ranking holds exactly the
    entries of the matrix whose absolute coefficient is below 1. *)
Theorem top_correlations_uncut (data : DataFrame) (limit : nat)
        (e : (string * string) * option Q) :
  (length (corr_abs_unstack data) <= limit)%nat ->
  (In e (Enhanced.top_correlations data limit)
   <-> In e (corr_abs_unstack data) /\ exists q, snd e = Some q /\ q < 1).
Proof.
  intros Hl. rewrite top_is_prefix, firstn_all2.
  - apply full_ranking_In.
  - eapply Nat.le_trans; [apply full_ranking_length | exact Hl].
Qed.

Lemma top_correlations_uncut_witness :
  In (("thrust", "torque")%string, Some (1 # 4)) (Enhanced.top_correlations probe 5)
  <-> In (("thrust", "torque")%string, Some (1 # 4)) (corr_abs_unstack probe)
      /\ exists q, snd (("thrust", "torque")%string, Some (1 # 4)) = Some q /\ q < 1.
Proof.
  apply (top_correlations_uncut probe 5). vm_compute. lia.
Defined.

(** ** Symmetry *)

Lemma complete_pairs_swap (xs ys : list (option Q)) :
  complete_pairs ys xs = map (fun p => (snd p, fst p)) (complete_pairs xs ys).
Proof.
  unfold complete_pairs. revert ys.
  induction xs as [| x xs IH]; intros [| y ys]; simpl; try reflexivity.
  rewrite IH. destruct x, y; reflexivity.
Qed.

Lemma Qsum_ext {A} (f g : A -> Q) (l : list A) :
  (forall a, f a == g a) -> Qsum (map f l) == Qsum (map g l).
Proof.
  intros H. induction l as [| a l IH]; simpl.
  - reflexivity.
  - rewrite (H a), IH. reflexivity.
Qed.

Lemma combine_swap {A B} (a : list A) (b : list B) :
  combine b a = map (fun p => (snd p, fst p)) (combine a b).
Proof.
  revert b. induction a as [| x a IH]; intros [| y b]; simpl; try reflexivity.
  rewrite IH. reflexivity.
Qed.

Lemma codev_comm (a b : list Q) : codev b a == codev a b.
Proof.
  unfold codev. rewrite (combine_swap a b), map_map.
  apply Qsum_ext. intros p. simpl. ring.
Qed.

Lemma corr_sym (xs ys : list (option Q)) : corr ys xs = corr xs ys.
Proof.
  unfold corr. rewrite (complete_pairs_swap xs ys), !map_map. cbn [fst snd].
  set (px := map (fun p => fst p) (complete_pairs xs ys)).
  set (py := map (fun p => snd p) (complete_pairs xs ys)).
  change (map fst (complete_pairs xs ys)) with px.
  change (map snd (complete_pairs xs ys)) with py.
  assert (E : Qeq_bool (codev py py * codev px px) 0
              = Qeq_bool (codev px px * codev py py) 0).
  { apply Qeqb_comp; [apply Qmult_comm | reflexivity]. }
  rewrite E. destruct (Qeq_bool (codev px px * codev py py) 0); [reflexivity |].
  f_equal. apply Qred_complete.
  rewrite (codev_comm px py), (Qmult_comm (codev py py)). reflexivity.
Qed.

Lemma unstack_mirror (data : DataFrame) (a b : string) (v : option Q) :
  In ((a, b), v) (corr_abs_unstack data) -> In ((b, a), v) (corr_abs_unstack data).
Proof.
  unfold corr_abs_unstack. intros H.
  apply in_flat_map in H. destruct H as [cb [Hb H]].
  apply in_map_iff in H. destruct H as [ca [E Ha]].
  injection E as <- <- <-.
  apply in_flat_map. exists ca. split; [exact Ha |].
  apply in_map_iff. exists cb. split; [| exact Hb].
  rewrite corr_sym. reflexivity.
Qed.

(** X17: with a limit that does not cut, a pair that the ranking lists is
    listed in the other order too, with the same coefficient: every pair of
    columns takes two places of the list. *)
Theorem top_correlations_mirrored (data : DataFrame) (limit : nat)
        (a b : string) (v : option Q) :
  (length (corr_abs_unstack data) <= limit)%nat ->
  In ((a, b), v) (Enhanced.top_correlations data limit) ->
  In ((b, a), v) (Enhanced.top_correlations data limit).
Proof.
  intros Hl. rewrite top_is_prefix, firstn_all2, !full_ranking_In.
  - intros [Hin Hq]. split; [apply unstack_mirror, Hin | exact Hq].
  - eapply Nat.le_trans; [apply full_ranking_length | exact Hl].
Qed.

Lemma top_correlations_mirrored_witness :
  In (("torque", "thrust")%string, Some (1 # 4)) (Enhanced.top_correlations probe 5).
Proof.
  apply (top_correlations_mirrored probe 5 "thrust" "torque").
  - vm_compute. lia.
  - vm_compute. tauto.
Defined.

